(** * The transcript state engine of the meeting translator

    A shallow embedding of the [useTranslator] hook, the second module of
    src/app/src/App.tsx (the line numbers below are those of that file).

    - The state cells ([useState]) and refs ([useRef]) of the hook are the
      fields of one record; each callback of the hook is a function on it.
    - A string is the list of its UTF-16 code units.
    - What a callback takes from outside (a reading of [Date.now()], the time
      string of [toLocaleTimeString()], the payload of a recognizer event, how
      the awaits of [startTranslator] ended) comes with the event.
    - The browser's timers are part of the state: the set of scheduled
      intervals and the number of pending timeouts, so that [clearInterval] has
      something to act on and a tick needs its interval to be scheduled.
    - A callback runs to its end, then React renders, and the silence effect
      (dependency [[status]]) runs when the status changed. [startTranslator]
      is [async]: it is cut at its [try], whose awaits let other events in.

    Around the hook, in modules of their own: the PCM conversion of the audio
    callback ([Audio]), the token endpoint of electron/main.ts ([Token]), the
    overlay window of the App component and the main process ([Overlay]) and
    the .env file of scripts/build-embedded.js ([EnvFile]). *)

From Stdlib Require Import ZArith NArith QArith Lia Bool Ascii String.
From stdpp Require Import base decidable option list numbers sorting gmap.

Local Open Scope Z_scope.

(** ** JavaScript strings *)

Module JsString.

(** A JavaScript string is a sequence of UTF-16 code units. *)
Abbreviation jsstring := (list N) (only parsing).

(** String literals of the source that are plain ASCII. *)
Definition lit (s : string) : jsstring :=
  map N_of_ascii (list_ascii_of_string s).

(** ECMAScript [WhiteSpace] and [LineTerminator] code points: the characters
    that [String.prototype.trim] strips from both ends. *)
Definition isWhiteSpace (c : N) : bool :=
  ((9 <=? c) && (c <=? 13) ||
   (c =? 32) || (c =? 160) || (c =? 0x1680) ||
   (0x2000 <=? c) && (c <=? 0x200A) ||
   (c =? 0x2028) || (c =? 0x2029) || (c =? 0x202F) || (c =? 0x205F) ||
   (c =? 0x3000) || (c =? 0xFEFF))%N.

Fixpoint trimStart (s : jsstring) : jsstring :=
  match s with
  | c :: s' => if isWhiteSpace c then trimStart s' else s
  | [] => []
  end.

Definition trimEnd (s : jsstring) : jsstring := rev (trimStart (rev s)).

(** [s.trim()] *)
Definition trim (s : jsstring) : jsstring := trimEnd (trimStart s).

(** The character class of [/[.?!…。？！]$/]: full stop, question mark,
    exclamation mark, U+2026, U+3002, U+FF1F, U+FF01. Each is one code unit. *)
Definition isSentenceEnd (c : N) : bool :=
  ((c =? 46) || (c =? 63) || (c =? 33) ||
   (c =? 0x2026) || (c =? 0x3002) || (c =? 0xFF1F) || (c =? 0xFF01))%N.

(** [/[.?!…。？！]$/.test(s)]: without the [m] flag, [$] is the end of input. *)
Definition endsWithPunctuation (s : jsstring) : bool :=
  match last s with
  | Some c => isSentenceEnd c
  | None => false
  end.

(** Truthiness of a value that is a string or [undefined]. *)
Definition truthy (t : option jsstring) : bool :=
  match t with
  | Some (_ :: _) => true
  | _ => false
  end.

End JsString.
Import JsString.

(** ** Data model *)

(** Silence detection constant *)
Definition SILENCE_MS : Z := 700.

Inductive TranslatorStatus := Idle | Listening | Translating | Error.

#[global] Instance TranslatorStatus_eq_dec : EqDecision TranslatorStatus.
Proof. solve_decision. Defined.

Record TranscriptItem := mkItem {
  id : Z;
  timestamp : jsstring;
  text : jsstring
}.

(** The hook's state cells ([useState]), its refs ([useRef], the value of
    [.current]) and the part of the browser the hook talks to. A ref that holds
    an SDK or audio object is modelled by whether it is non-null. *)
Record State := mkState {
  (* useState *)
  status : TranslatorStatus;
  transcript : list TranscriptItem;
  interimText : jsstring;
  lastCommitted : jsstring;
  errorMessage : option jsstring;
  silenceCommitted : bool;
  latencyMs : option Z;
  (* useRef *)
  recognizerRef : bool;
  mediaStreamRef : bool;
  audioContextRef : bool;
  processorRef : bool;
  pushStreamRef : bool;
  lastUpdateTimeRef : Z;
  silenceTimerRef : option nat;
  lastCommittedTextRef : jsstring;
  currentInterimRef : jsstring;
  lastEventTimeRef : Z;
  (* browser: intervals that are scheduled, the next timer handle, and the
     number of one-shot timeouts of the silence indicator not yet fired *)
  liveIntervals : gset nat;
  nextTimerId : nat;
  pendingTimeouts : nat
}.

Definition initialState : State := {|
  status := Idle; transcript := []; interimText := []; lastCommitted := [];
  errorMessage := None; silenceCommitted := false; latencyMs := None;
  recognizerRef := false; mediaStreamRef := false; audioContextRef := false;
  processorRef := false; pushStreamRef := false;
  lastUpdateTimeRef := 0; silenceTimerRef := None; lastCommittedTextRef := [];
  currentInterimRef := []; lastEventTimeRef := 0;
  liveIntervals := ∅; nextTimerId := 0%nat; pendingTimeouts := 0%nat
|}.

(** ** Assignments

    One setter per cell: [setStatus v] is the source's [setStatus(v)], and
    [set_fooRef v] is [fooRef.current = v]. State setters are applied at once;
    the hook never reads a state cell back inside a callback. *)

Definition setStatus (v : TranslatorStatus) (s : State) : State :=
  mkState v (transcript s) (interimText s) (lastCommitted s) (errorMessage s)
    (silenceCommitted s) (latencyMs s) (recognizerRef s) (mediaStreamRef s)
    (audioContextRef s) (processorRef s) (pushStreamRef s)
    (lastUpdateTimeRef s) (silenceTimerRef s) (lastCommittedTextRef s)
    (currentInterimRef s) (lastEventTimeRef s) (liveIntervals s)
    (nextTimerId s) (pendingTimeouts s).

Definition setTranscript (v : list TranscriptItem) (s : State) : State :=
  mkState (status s) v (interimText s) (lastCommitted s) (errorMessage s)
    (silenceCommitted s) (latencyMs s) (recognizerRef s) (mediaStreamRef s)
    (audioContextRef s) (processorRef s) (pushStreamRef s)
    (lastUpdateTimeRef s) (silenceTimerRef s) (lastCommittedTextRef s)
    (currentInterimRef s) (lastEventTimeRef s) (liveIntervals s)
    (nextTimerId s) (pendingTimeouts s).

Definition setInterimText (v : jsstring) (s : State) : State :=
  mkState (status s) (transcript s) v (lastCommitted s) (errorMessage s)
    (silenceCommitted s) (latencyMs s) (recognizerRef s) (mediaStreamRef s)
    (audioContextRef s) (processorRef s) (pushStreamRef s)
    (lastUpdateTimeRef s) (silenceTimerRef s) (lastCommittedTextRef s)
    (currentInterimRef s) (lastEventTimeRef s) (liveIntervals s)
    (nextTimerId s) (pendingTimeouts s).

Definition setLastCommitted (v : jsstring) (s : State) : State :=
  mkState (status s) (transcript s) (interimText s) v (errorMessage s)
    (silenceCommitted s) (latencyMs s) (recognizerRef s) (mediaStreamRef s)
    (audioContextRef s) (processorRef s) (pushStreamRef s)
    (lastUpdateTimeRef s) (silenceTimerRef s) (lastCommittedTextRef s)
    (currentInterimRef s) (lastEventTimeRef s) (liveIntervals s)
    (nextTimerId s) (pendingTimeouts s).

Definition setErrorMessage (v : option jsstring) (s : State) : State :=
  mkState (status s) (transcript s) (interimText s) (lastCommitted s) v
    (silenceCommitted s) (latencyMs s) (recognizerRef s) (mediaStreamRef s)
    (audioContextRef s) (processorRef s) (pushStreamRef s)
    (lastUpdateTimeRef s) (silenceTimerRef s) (lastCommittedTextRef s)
    (currentInterimRef s) (lastEventTimeRef s) (liveIntervals s)
    (nextTimerId s) (pendingTimeouts s).

Definition setSilenceCommitted (v : bool) (s : State) : State :=
  mkState (status s) (transcript s) (interimText s) (lastCommitted s)
    (errorMessage s) v (latencyMs s) (recognizerRef s) (mediaStreamRef s)
    (audioContextRef s) (processorRef s) (pushStreamRef s)
    (lastUpdateTimeRef s) (silenceTimerRef s) (lastCommittedTextRef s)
    (currentInterimRef s) (lastEventTimeRef s) (liveIntervals s)
    (nextTimerId s) (pendingTimeouts s).

Definition setLatencyMs (v : option Z) (s : State) : State :=
  mkState (status s) (transcript s) (interimText s) (lastCommitted s)
    (errorMessage s) (silenceCommitted s) v (recognizerRef s)
    (mediaStreamRef s) (audioContextRef s) (processorRef s) (pushStreamRef s)
    (lastUpdateTimeRef s) (silenceTimerRef s) (lastCommittedTextRef s)
    (currentInterimRef s) (lastEventTimeRef s) (liveIntervals s)
    (nextTimerId s) (pendingTimeouts s).

Definition set_recognizerRef (v : bool) (s : State) : State :=
  mkState (status s) (transcript s) (interimText s) (lastCommitted s)
    (errorMessage s) (silenceCommitted s) (latencyMs s) v (mediaStreamRef s)
    (audioContextRef s) (processorRef s) (pushStreamRef s)
    (lastUpdateTimeRef s) (silenceTimerRef s) (lastCommittedTextRef s)
    (currentInterimRef s) (lastEventTimeRef s) (liveIntervals s)
    (nextTimerId s) (pendingTimeouts s).

Definition set_mediaStreamRef (v : bool) (s : State) : State :=
  mkState (status s) (transcript s) (interimText s) (lastCommitted s)
    (errorMessage s) (silenceCommitted s) (latencyMs s) (recognizerRef s) v
    (audioContextRef s) (processorRef s) (pushStreamRef s)
    (lastUpdateTimeRef s) (silenceTimerRef s) (lastCommittedTextRef s)
    (currentInterimRef s) (lastEventTimeRef s) (liveIntervals s)
    (nextTimerId s) (pendingTimeouts s).

Definition set_audioContextRef (v : bool) (s : State) : State :=
  mkState (status s) (transcript s) (interimText s) (lastCommitted s)
    (errorMessage s) (silenceCommitted s) (latencyMs s) (recognizerRef s)
    (mediaStreamRef s) v (processorRef s) (pushStreamRef s)
    (lastUpdateTimeRef s) (silenceTimerRef s) (lastCommittedTextRef s)
    (currentInterimRef s) (lastEventTimeRef s) (liveIntervals s)
    (nextTimerId s) (pendingTimeouts s).

Definition set_processorRef (v : bool) (s : State) : State :=
  mkState (status s) (transcript s) (interimText s) (lastCommitted s)
    (errorMessage s) (silenceCommitted s) (latencyMs s) (recognizerRef s)
    (mediaStreamRef s) (audioContextRef s) v (pushStreamRef s)
    (lastUpdateTimeRef s) (silenceTimerRef s) (lastCommittedTextRef s)
    (currentInterimRef s) (lastEventTimeRef s) (liveIntervals s)
    (nextTimerId s) (pendingTimeouts s).

Definition set_pushStreamRef (v : bool) (s : State) : State :=
  mkState (status s) (transcript s) (interimText s) (lastCommitted s)
    (errorMessage s) (silenceCommitted s) (latencyMs s) (recognizerRef s)
    (mediaStreamRef s) (audioContextRef s) (processorRef s) v
    (lastUpdateTimeRef s) (silenceTimerRef s) (lastCommittedTextRef s)
    (currentInterimRef s) (lastEventTimeRef s) (liveIntervals s)
    (nextTimerId s) (pendingTimeouts s).

Definition set_lastUpdateTimeRef (v : Z) (s : State) : State :=
  mkState (status s) (transcript s) (interimText s) (lastCommitted s)
    (errorMessage s) (silenceCommitted s) (latencyMs s) (recognizerRef s)
    (mediaStreamRef s) (audioContextRef s) (processorRef s) (pushStreamRef s)
    v (silenceTimerRef s) (lastCommittedTextRef s) (currentInterimRef s)
    (lastEventTimeRef s) (liveIntervals s) (nextTimerId s)
    (pendingTimeouts s).

Definition set_silenceTimerRef (v : option nat) (s : State) : State :=
  mkState (status s) (transcript s) (interimText s) (lastCommitted s)
    (errorMessage s) (silenceCommitted s) (latencyMs s) (recognizerRef s)
    (mediaStreamRef s) (audioContextRef s) (processorRef s) (pushStreamRef s)
    (lastUpdateTimeRef s) v (lastCommittedTextRef s) (currentInterimRef s)
    (lastEventTimeRef s) (liveIntervals s) (nextTimerId s)
    (pendingTimeouts s).

Definition set_lastCommittedTextRef (v : jsstring) (s : State) : State :=
  mkState (status s) (transcript s) (interimText s) (lastCommitted s)
    (errorMessage s) (silenceCommitted s) (latencyMs s) (recognizerRef s)
    (mediaStreamRef s) (audioContextRef s) (processorRef s) (pushStreamRef s)
    (lastUpdateTimeRef s) (silenceTimerRef s) v (currentInterimRef s)
    (lastEventTimeRef s) (liveIntervals s) (nextTimerId s)
    (pendingTimeouts s).

Definition set_currentInterimRef (v : jsstring) (s : State) : State :=
  mkState (status s) (transcript s) (interimText s) (lastCommitted s)
    (errorMessage s) (silenceCommitted s) (latencyMs s) (recognizerRef s)
    (mediaStreamRef s) (audioContextRef s) (processorRef s) (pushStreamRef s)
    (lastUpdateTimeRef s) (silenceTimerRef s) (lastCommittedTextRef s) v
    (lastEventTimeRef s) (liveIntervals s) (nextTimerId s)
    (pendingTimeouts s).

Definition set_lastEventTimeRef (v : Z) (s : State) : State :=
  mkState (status s) (transcript s) (interimText s) (lastCommitted s)
    (errorMessage s) (silenceCommitted s) (latencyMs s) (recognizerRef s)
    (mediaStreamRef s) (audioContextRef s) (processorRef s) (pushStreamRef s)
    (lastUpdateTimeRef s) (silenceTimerRef s) (lastCommittedTextRef s)
    (currentInterimRef s) v (liveIntervals s) (nextTimerId s)
    (pendingTimeouts s).

Definition set_liveIntervals (v : gset nat) (s : State) : State :=
  mkState (status s) (transcript s) (interimText s) (lastCommitted s)
    (errorMessage s) (silenceCommitted s) (latencyMs s) (recognizerRef s)
    (mediaStreamRef s) (audioContextRef s) (processorRef s) (pushStreamRef s)
    (lastUpdateTimeRef s) (silenceTimerRef s) (lastCommittedTextRef s)
    (currentInterimRef s) (lastEventTimeRef s) v (nextTimerId s)
    (pendingTimeouts s).

Definition set_nextTimerId (v : nat) (s : State) : State :=
  mkState (status s) (transcript s) (interimText s) (lastCommitted s)
    (errorMessage s) (silenceCommitted s) (latencyMs s) (recognizerRef s)
    (mediaStreamRef s) (audioContextRef s) (processorRef s) (pushStreamRef s)
    (lastUpdateTimeRef s) (silenceTimerRef s) (lastCommittedTextRef s)
    (currentInterimRef s) (lastEventTimeRef s) (liveIntervals s) v
    (pendingTimeouts s).

Definition set_pendingTimeouts (v : nat) (s : State) : State :=
  mkState (status s) (transcript s) (interimText s) (lastCommitted s)
    (errorMessage s) (silenceCommitted s) (latencyMs s) (recognizerRef s)
    (mediaStreamRef s) (audioContextRef s) (processorRef s) (pushStreamRef s)
    (lastUpdateTimeRef s) (silenceTimerRef s) (lastCommittedTextRef s)
    (currentInterimRef s) (lastEventTimeRef s) (liveIntervals s)
    (nextTimerId s) v.

(** Statements in sequence: [c1 >>> c2] runs [c1], then [c2]. *)
Definition Handler : Type := State -> State.

Definition seq (c1 c2 : Handler) : Handler := fun s => c2 (c1 s).
Infix ">>>" := seq (at level 61, left associativity).

Definition skip : Handler := fun s => s.

(** ** The silence timer (lines 445-504) *)

Definition isActive (st : TranslatorStatus) : bool :=
  match st with
  | Listening | Translating => true
  | Idle | Error => false
  end.

(** [if (silenceTimerRef.current) { clearInterval(silenceTimerRef.current);
    silenceTimerRef.current = null; }] *)
Definition clearSilenceTimer : Handler := fun s =>
  match silenceTimerRef s with
  | Some t => (set_liveIntervals (liveIntervals s ∖ {[t]}) >>> set_silenceTimerRef None) s
  | None => s
  end.

(** [setInterval(callback, 100)]: the browser hands out a fresh handle and
    schedules the interval; the handle is stored in [silenceTimerRef]. *)
Definition startSilenceTimer : Handler := fun s =>
  let t := nextTimerId s in
  (set_nextTimerId (S t) >>> set_liveIntervals (liveIntervals s ∪ {[t]}) >>>
   set_silenceTimerRef (Some t)) s.

(** The body of the effect, run with the status of the render. *)
Definition silenceEffect : Handler := fun s =>
  if negb (isActive (status s)) then clearSilenceTimer s
  else startSilenceTimer s.

(** The function the effect returns when it started a timer. *)
Definition silenceEffectCleanup : Handler := clearSilenceTimer.

(** What the [setInterval] callback tests before it commits. *)
Definition silenceDetected (now : Z) (s : State) : bool :=
  let timeSinceUpdate := now - lastUpdateTimeRef s in
  let currentInterim := currentInterimRef s in
  (SILENCE_MS <=? timeSinceUpdate) &&
  (0 <? length (trim currentInterim))%nat &&
  bool_decide (trim currentInterim ≠ lastCommittedTextRef s).

(** Add punctuation if not already present. *)
Definition punctuate (t : jsstring) : jsstring :=
  if negb (endsWithPunctuation t) then t ++ lit "." else t.

(** The [setInterval] callback (lines 456-496). [now] is the clock reading at
    its first line, [idNow] the one taken for the item's id, [ts] the result of
    [new Date().toLocaleTimeString()]. *)
Definition checkSilence (now idNow : Z) (ts : jsstring) : Handler := fun s =>
  if silenceDetected now s then
    let textToCommit := punctuate (trim (currentInterimRef s)) in
    let newItem := {| id := idNow; timestamp := ts; text := textToCommit |} in
    (setTranscript (transcript s ++ [newItem]) >>>
     setLastCommitted textToCommit >>>
     setInterimText [] >>>
     set_currentInterimRef [] >>>
     set_lastCommittedTextRef textToCommit >>>
     setSilenceCommitted true >>>
     set_pendingTimeouts (S (pendingTimeouts s)) >>>
     set_lastUpdateTimeRef now) s
  else s.

(** The [setTimeout] callback of the silence indicator, 1500ms later. *)
Definition silenceIndicatorTimeout : Handler := fun s =>
  (setSilenceCommitted false >>> set_pendingTimeouts (pred (pendingTimeouts s))) s.

(** ** Teardown (lines 668-734) *)

Definition cleanupRecognizer : Handler :=
  clearSilenceTimer >>>
  set_recognizerRef false >>>
  set_pushStreamRef false >>>
  set_processorRef false >>>
  set_audioContextRef false >>>
  set_mediaStreamRef false >>>
  set_currentInterimRef [].

Definition stopTranslator : Handler :=
  cleanupRecognizer >>>
  setStatus Idle >>>
  setInterimText [] >>>
  setLatencyMs None >>>
  set_lastEventTimeRef 0.

Definition clearTranscript : Handler :=
  setTranscript [] >>>
  setInterimText [] >>>
  setLastCommitted [] >>>
  set_lastCommittedTextRef [] >>>
  set_currentInterimRef [].

Definition resetError : Handler := setErrorMessage None.

(** ** Recognizer callbacks (lines 593-658) *)

(** The sample the [recognizing] handler passes to [setLatencyMs], if any:
    the time between consecutive recognizing events, kept when it is a
    reasonable value (50-2000ms). *)
Definition latencySample (lastEventTime now : Z) : option Z :=
  if 0 <? lastEventTime then
    let delta := now - lastEventTime in
    if (50 <=? delta) && (delta <=? 2000) then Some delta else None
  else None.

(** [recognizing]: [translating] says whether the result's reason is
    [TranslatingSpeech], [txt] is [translations.get(targetLang)]. *)
Definition recognizing (translating : bool) (txt : option jsstring) (now : Z) : Handler := fun s =>
  match txt with
  | Some t =>
      if translating && truthy txt then
        ((match latencySample (lastEventTimeRef s) now with
          | Some delta => setLatencyMs (Some delta)
          | None => skip
          end) >>>
         set_lastEventTimeRef now >>>
         setStatus Translating >>>
         setInterimText t >>>
         set_currentInterimRef t >>>
         set_lastUpdateTimeRef now) s
      else s
  | None => s
  end.

(** [recognized]: [translated] says whether the reason is [TranslatedSpeech];
    [idNow] and [updNow] are the two readings of [Date.now()]. *)
Definition recognized (translated : bool) (txt : option jsstring)
    (idNow : Z) (ts : jsstring) (updNow : Z) : Handler := fun s =>
  match txt with
  | Some t =>
      if translated && truthy txt && bool_decide (trim t ≠ lastCommittedTextRef s) then
        let newItem := {| id := idNow; timestamp := ts; text := t |} in
        (setTranscript (transcript s ++ [newItem]) >>>
         setLastCommitted t >>>
         setInterimText [] >>>
         set_currentInterimRef [] >>>
         set_lastCommittedTextRef t >>>
         set_lastUpdateTimeRef updNow) s
      else s
  | None => s
  end.

(** [canceled]: [isError] says whether the reason is [CancellationReason.Error]. *)
Definition canceled (isError : bool) (errorDetails : jsstring) : Handler :=
  if isError then
    setErrorMessage (Some (lit "Speech Error: " ++ errorDetails)) >>>
    stopTranslator
  else skip.

(** The error callback passed to [startContinuousRecognitionAsync]. *)
Definition recognitionStartFailed (err : jsstring) : Handler :=
  setErrorMessage (Some (lit "Failed to start: " ++ err)) >>>
  stopTranslator.

(** ** Session start (lines 506-666) *)

(** [startTranslator] up to the [try]: the guards and the synchronous reset.
    The flag says whether the call goes on into the [try] block. *)
Definition startTranslator (sdkLoaded : bool) (now : Z) (s : State) : State * bool :=
  if recognizerRef s then (s, false)
  else if negb sdkLoaded then
    ((setErrorMessage (Some (lit "Speech SDK not loaded. Check your internet connection.")) >>>
      setStatus Error) s, false)
  else
    ((setStatus Listening >>>
      setErrorMessage None >>>
      setInterimText [] >>>
      set_lastUpdateTimeRef now >>>
      set_lastCommittedTextRef [] >>>
      set_currentInterimRef []) s, true).

(** How the [try] block ends: it runs to its last line, or something in it
    throws an error with the given [message] (possibly [undefined]). *)
Inductive StartOutcome :=
  | StartOk
  | StartThrows (message : option jsstring).

(** The [try] block once its awaits are settled, and the [catch]. On success
    the audio pipeline and the recognizer are owned and the three handlers are
    attached. Whatever the block acquired before it threw is released again by
    [cleanupRecognizer], so the state after the [catch] does not depend on where
    it threw. *)
Definition startTranslatorTry (o : StartOutcome) : Handler :=
  match o with
  | StartOk =>
      set_mediaStreamRef true >>>
      set_audioContextRef true >>>
      set_processorRef true >>>
      set_pushStreamRef true >>>
      set_recognizerRef true
  | StartThrows message =>
      setErrorMessage
        (Some (if truthy message then default [] message
               else lit "Failed to start translation")) >>>
      setStatus Error >>>
      cleanupRecognizer
  end.

(** ** Events

    Everything that can run a callback of the hook: the UI ([EStart], [EStop],
    [EClear], [EResetError]), the settling of a suspended [startTranslator], the
    recognizer, and the two kinds of timers. Clock readings and display strings
    come with the event; [idNow], [ts] and [updNow] are what a callback reads
    where it builds an item, and are not looked at when it appends nothing. *)
Inductive Event :=
  | EStart (sdkLoaded : bool) (now : Z)
  | EStartSettled (o : StartOutcome)
  | ERecognizing (translating : bool) (txt : option jsstring) (now : Z)
  | ERecognized (translated : bool) (txt : option jsstring) (idNow : Z) (ts : jsstring) (updNow : Z)
  | ECanceled (isError : bool) (errorDetails : jsstring)
  | ERecognitionStartFailed (err : jsstring)
  | ETick (timer : nat) (now idNow : Z) (ts : jsstring)
  | EIndicatorTimeout
  | EStop
  | EClear
  | EResetError.

Definition callback (e : Event) : Handler :=
  match e with
  | EStart sdkLoaded now => fun s => fst (startTranslator sdkLoaded now s)
  | EStartSettled o => startTranslatorTry o
  | ERecognizing translating txt now => recognizing translating txt now
  | ERecognized translated txt idNow ts updNow => recognized translated txt idNow ts updNow
  | ECanceled isError errorDetails => canceled isError errorDetails
  | ERecognitionStartFailed err => recognitionStartFailed err
  | ETick _ now idNow ts => checkSilence now idNow ts
  | EIndicatorTimeout => silenceIndicatorTimeout
  | EStop => stopTranslator
  | EClear => clearTranscript
  | EResetError => resetError
  end.

(** The render that follows a callback. The silence effect depends on
    [[status]] alone: when the status differs from the one of the previous
    render, the cleanup returned by the previous run (there is one when that run
    started a timer) is called, then the effect body. *)
Definition render (prev : TranslatorStatus) : Handler := fun s =>
  if bool_decide (status s = prev) then s
  else ((if isActive prev then silenceEffectCleanup else skip) >>> silenceEffect) s.

Definition handle (e : Event) : Handler := fun s =>
  render (status s) (callback e s).

(** A timer callback runs only for a timer that is still scheduled: an interval
    whose handle was not cleared, a timeout that is pending. The other events
    are not constrained: the results below hold for every order in which the UI,
    the recognizer and the awaits of [startTranslator] deliver them. *)
Definition enabled (e : Event) (s : State) : Prop :=
  match e with
  | ETick timer _ _ _ => timer ∈ liveIntervals s
  | EIndicatorTimeout => (0 < pendingTimeouts s)%nat
  | _ => True
  end.

Inductive step (s : State) (e : Event) : State -> Prop :=
  | step_handle : enabled e s -> step s e (handle e s).

(** States the mounted hook can be in. *)
Inductive reachable : State -> Prop :=
  | reachable_init : reachable initialState
  | reachable_step s e s' : reachable s -> step s e s' -> reachable s'.

(** Executions: every event of the list is enabled when its turn comes. *)
Inductive trace : State -> list Event -> State -> Prop :=
  | trace_nil s : trace s [] s
  | trace_cons s e s' evs s'' :
      step s e s' -> trace s' evs s'' -> trace s (e :: evs) s''.

(** Handling a list of events in order. *)
Fixpoint run (evs : list Event) (s : State) : State :=
  match evs with
  | [] => s
  | e :: evs' => run evs' (handle e s)
  end.

(** ** The audio callback (lines 558-568) *)

Module Audio.

(** An element of a [Float32Array], or a JavaScript number computed from one:
    a finite value (every finite float is a rational), an infinity, or NaN. *)
Inductive Float := Finite (q : Q) | PosInf | NegInf | NaN.

(** [Math.min(1, x)] *)
Definition min1 (x : Float) : Float :=
  match x with
  | Finite q => if Qlt_le_dec q 1 then Finite q else Finite 1
  | PosInf => Finite 1
  | NegInf => NegInf
  | NaN => NaN
  end.

(** [Math.max(-1, y)] *)
Definition maxNeg1 (y : Float) : Float :=
  match y with
  | Finite q => if Qlt_le_dec (-1) q then Finite q else Finite (-1)
  | PosInf => PosInf
  | NegInf => Finite (-1)
  | NaN => NaN
  end.

(** [s < 0 ? s * 0x8000 : s * 0x7FFF] *)
Definition scale (s : Float) : Float :=
  match s with
  | Finite q => if Qlt_le_dec q 0 then Finite (q * 32768) else Finite (q * 32767)
  | PosInf => PosInf
  | NegInf => NegInf
  | NaN => NaN
  end.

(** The integer part of a rational, rounding toward zero. *)
Definition truncate (q : Q) : Z := Z.quot (Qnum q) (Zpos (Qden q)).

(** Reading an integer as a signed 16-bit value, modulo 2^16. *)
Definition wrap16 (z : Z) : Z :=
  let m := z mod 65536 in
  if 32768 <=? m then m - 65536 else m.

(** Storing a number in an [Int16Array] ([ToInt16]): NaN and the infinities
    give 0, a finite value is truncated and wrapped. *)
Definition toInt16 (v : Float) : Z :=
  match v with
  | Finite q => wrap16 (truncate q)
  | _ => 0
  end.

(** One step of the loop of [onaudioprocess]. *)
Definition pcmSample (x : Float) : Z := toInt16 (scale (maxNeg1 (min1 x))).

(** The [onaudioprocess] callback: what it writes to the push stream, if the
    stream is still there. *)
Definition onaudioprocess (inputData : list Float) (s : State) : option (list Z) :=
  let pcmData := map pcmSample inputData in
  if pushStreamRef s then Some pcmData else None.

End Audio.

(** ** The token endpoint (electron/main.ts, lines 78-108) and its caller *)

Module Token.

(** [a || b] for [a] a string or [undefined]. *)
Definition orElse (a : option jsstring) (b : jsstring) : jsstring :=
  if truthy a then default [] a else b.

(** Where the credentials come from: the two environment variables, and the
    embedded configuration ([""] when there is none). *)
Record Credentials := mkCredentials {
  envKey : option jsstring;
  envRegion : option jsstring;
  embeddedKey : jsstring;
  embeddedRegion : jsstring
}.

(** How the POST to Azure ends: with the token as response data, or with an
    error whose [response?.status] may be missing. axios resolves on a status
    from 200 to 299 and rejects on any other, so the status of an error, when
    there is one, is that of a final HTTP response outside that range. *)
Inductive AzureOutcome :=
  | AzureOk (data : jsstring)
  | AzureError (status : option Z).

(** What a response of the endpoint carries: one of its two JSON objects, or
    nothing at all. *)
Inductive Body :=
  | TokenBody (token region : jsstring)
  | ErrorBody (error : jsstring)
  | NoBody.

Record Response := mkResponse { statusCode : Z; body : Body }.

(** The statuses Node and Express send without a body, whatever the handler
    passed to [res.json]: 1xx, 204 and 304. *)
Definition bodyless (code : Z) : bool :=
  (100 <=? code) && (code <=? 199) || (code =? 204) || (code =? 304).

(** [res.status(code).json(payload)] *)
Definition json (code : Z) (payload : Body) : Response :=
  mkResponse code (if bodyless code then NoBody else payload).

Definition issueTokenUrl (speechRegion : jsstring) : jsstring :=
  lit "https://" ++ speechRegion ++ lit ".api.cognitive.microsoft.com/sts/v1.0/issueToken".

Definition credentialsNotFound : jsstring :=
  lit "Azure credentials not found. Set SPEECH_KEY and SPEECH_REGION environment variables, or use an embedded build.".

(** [server.get('/token', ...)]; [azure url key] is the outcome of the POST to
    [url] with the subscription key [key]. *)
Definition tokenHandler (c : Credentials)
    (azure : jsstring -> jsstring -> AzureOutcome) : Response :=
  let speechKey := orElse (envKey c) (embeddedKey c) in
  let speechRegion := orElse (envRegion c) (embeddedRegion c) in
  if negb (truthy (Some speechKey)) || negb (truthy (Some speechRegion)) then
    json 500 (ErrorBody credentialsNotFound)
  else
    match azure (issueTokenUrl speechRegion) speechKey with
    | AzureOk data => json 200 (TokenBody data speechRegion)
    | AzureError status =>
        json (match status with
              | Some st => if st =? 0 then 500 else st
              | None => 500
              end)
             (ErrorBody (lit "Failed to fetch token from Azure"))
    end.


End Token.

(** ** Overlay mode (App, lines 72-200, and electron/main.ts, lines 33-179) *)

Module Overlay.

Record Rectangle := mkRectangle { x : Z; y : Z; width : Z; height : Z }.

(** What the main process sets on its [BrowserWindow]. *)
Record Window := mkWindow {
  bounds : Rectangle;
  alwaysOnTop : bool;
  ignoreMouseEvents : bool
}.

(** The renderer's two flags ([useState] of [App]) and the main process's two
    variables. *)
Record Desktop := mkDesktop {
  isOverlay : bool;
  isClickThrough : bool;
  mainWindow : option Window;
  normalBounds : Rectangle
}.

(** After [createWindow] placed the window at [placed]: [normalBounds] is read
    before [center()] moves the window to [centered]. *)
Definition created (placed centered : Rectangle) : Desktop :=
  mkDesktop false false (Some (mkWindow centered false false)) placed.

Definition withWindow (f : Window -> Window) (d : Desktop) : Desktop :=
  mkDesktop (isOverlay d) (isClickThrough d) (option_map f (mainWindow d)) (normalBounds d).

Definition setBounds (r : Rectangle) (w : Window) : Window :=
  mkWindow r (alwaysOnTop w) (ignoreMouseEvents w).

Definition setAlwaysOnTop (b : bool) (w : Window) : Window :=
  mkWindow (bounds w) b (ignoreMouseEvents w).

Definition setIgnoreMouseEvents (b : bool) (w : Window) : Window :=
  mkWindow (bounds w) (alwaysOnTop w) b.

(** The rectangle of the overlay on a work area of the given size. The
    division is exact: the dividend is 100. *)
Definition overlayBounds (workAreaSize : Z * Z) : Rectangle :=
  let '(width, height) := workAreaSize in
  let overlayWidth := width - 100 in
  let overlayHeight := 180 in
  let x := (width - overlayWidth) / 2 in
  let y := height - overlayHeight - 20 in
  mkRectangle x y overlayWidth overlayHeight.

(** [ipcMain.on('ui:set-overlay-mode', ...)] *)
Definition ipcSetOverlayMode (workAreaSize : Z * Z) (flag : bool) (d : Desktop) : Desktop :=
  match mainWindow d with
  | None => d
  | Some w =>
      if flag then
        mkDesktop (isOverlay d) (isClickThrough d)
          (Some (setBounds (overlayBounds workAreaSize) (setAlwaysOnTop true w)))
          (bounds w)
      else
        withWindow (fun w =>
          setBounds (normalBounds d) (setIgnoreMouseEvents false (setAlwaysOnTop false w))) d
  end.

(** [ipcMain.on('ui:set-click-through', ...)] and ['ui:set-mouse-ignore'] *)
Definition ipcSetClickThrough (enable : bool) : Desktop -> Desktop :=
  withWindow (setIgnoreMouseEvents enable).

Definition ipcSetMouseIgnore (ignore : bool) : Desktop -> Desktop :=
  withWindow (setIgnoreMouseEvents ignore).

Definition setIsOverlay (b : bool) (d : Desktop) : Desktop :=
  mkDesktop b (isClickThrough d) (mainWindow d) (normalBounds d).

Definition setIsClickThrough (b : bool) (d : Desktop) : Desktop :=
  mkDesktop (isOverlay d) b (mainWindow d) (normalBounds d).

(** [toggleOverlay], and the handler of the overlay hotkey, which does the same. *)
Definition toggleOverlay (workAreaSize : Z * Z) (d : Desktop) : Desktop :=
  let newOverlayState := negb (isOverlay d) in
  let d1 := ipcSetOverlayMode workAreaSize newOverlayState (setIsOverlay newOverlayState d) in
  if negb newOverlayState then ipcSetClickThrough false (setIsClickThrough false d1)
  else d1.

Definition toggleClickThrough (checked : bool) (d : Desktop) : Desktop :=
  ipcSetClickThrough checked (setIsClickThrough checked d).

Definition handleMouseEnter (d : Desktop) : Desktop :=
  if isClickThrough d then ipcSetMouseIgnore false d else d.

Definition handleMouseLeave (d : Desktop) : Desktop :=
  if isClickThrough d then ipcSetMouseIgnore true d else d.

(** What can happen to the window. The checkbox and the hover zone exist in
    the overlay layout only; the user may move or resize the window at any
    time; closing it leaves the main process without a window. *)
Inductive Action :=
  | AToggleOverlay (workAreaSize : Z * Z)
  | AToggleClickThrough (checked : bool)
  | AMouseEnter
  | AMouseLeave
  | AMoved (r : Rectangle)
  | AClosed.

Definition act (a : Action) (d : Desktop) : Desktop :=
  match a with
  | AToggleOverlay workAreaSize => toggleOverlay workAreaSize d
  | AToggleClickThrough checked => toggleClickThrough checked d
  | AMouseEnter => handleMouseEnter d
  | AMouseLeave => handleMouseLeave d
  | AMoved r => withWindow (setBounds r) d
  | AClosed => mkDesktop (isOverlay d) (isClickThrough d) None (normalBounds d)
  end.

Definition offered (a : Action) (d : Desktop) : Prop :=
  match a with
  | AToggleClickThrough _ | AMouseEnter | AMouseLeave => isOverlay d = true
  | _ => True
  end.

Inductive reachable (d0 : Desktop) : Desktop -> Prop :=
  | reachable_start : reachable d0 d0
  | reachable_act d a : reachable d0 d -> offered a d -> reachable d0 (act a d).

Fixpoint acts (l : list Action) (d : Desktop) : Desktop :=
  match l with
  | [] => d
  | a :: l' => acts l' (act a d)
  end.

Definition staysInOverlay (a : Action) : bool :=
  match a with
  | AToggleOverlay _ | AClosed => false
  | _ => true
  end.

(** In normal mode the window is an ordinary one; in any mode it lets the
    mouse through only while click-through is on. *)
Definition coherent (d : Desktop) : Prop :=
  (isClickThrough d = true -> isOverlay d = true) /\
  match mainWindow d with
  | Some w =>
      alwaysOnTop w = isOverlay d /\
      (ignoreMouseEvents w = true -> isClickThrough d = true)
  | None => True
  end.

End Overlay.

(** ** The .env file of the embedded build (scripts/build-embedded.js, lines 22-46) *)

Module EnvFile.

Definition newline : N := 10.
Definition equalsSign : N := 61.
Definition hash : N := 35.

(** [s.split(c)] for a separator of one character. *)
Fixpoint split (sep : N) (s : jsstring) : list jsstring :=
  match s with
  | [] => [[]]
  | c :: s' =>
      if (c =? sep)%N then [] :: split sep s'
      else match split sep s' with
           | p :: ps => (c :: p) :: ps
           | [] => [[c]]
           end
  end.

(** [parts.join(c)] *)
Fixpoint join (sep : N) (parts : list jsstring) : jsstring :=
  match parts with
  | [] => []
  | [p] => p
  | p :: ps => p ++ sep :: join sep ps
  end.

(** [s.startsWith(c)] *)
Definition startsWith (c : N) (s : jsstring) : bool :=
  match s with
  | d :: _ => (d =? c)%N
  | [] => false
  end.

(** The body of the [forEach]: the assignment a line makes, if any. *)
Definition parseLine (line : jsstring) : option (jsstring * jsstring) :=
  let trimmed := trim line in
  if truthy (Some trimmed) && negb (startsWith hash trimmed) then
    match split equalsSign trimmed with
    | key :: valueParts =>
        if truthy (Some key) && (0 <? length valueParts)%nat then
          Some (trim key, trim (join equalsSign valueParts))
        else None
    | [] => None
    end
  else None.

(** [envVars[key] = value] on an object created by [{}]: the own property is
    set, except under the key [__proto__], whose setter ignores a string. *)
Definition setProperty (envVars : gmap (list N) (list N)) (key value : jsstring)
    : gmap (list N) (list N) :=
  if bool_decide (key = lit "__proto__") then envVars else <[key := value]> envVars.

Definition assign (envVars : gmap (list N) (list N)) (line : jsstring)
    : gmap (list N) (list N) :=
  match parseLine line with
  | Some (key, value) => setProperty envVars key value
  | None => envVars
  end.

(** The object [envVars] after the loop over the lines of the file. *)
Definition parseEnv (envContent : jsstring) : gmap (list N) (list N) :=
  fold_left assign (split newline envContent) ∅.

(** The two checks that end the script with exit code 1, or the credentials
    it goes on to embed. *)
Inductive Checked :=
  | KeyNotSet
  | RegionNotSet
  | Found (speechKey speechRegion : jsstring).

Definition checkCredentials (envVars : gmap (list N) (list N)) : Checked :=
  let speechKey := envVars !! lit "SPEECH_KEY" in
  let speechRegion := envVars !! lit "SPEECH_REGION" in
  if negb (truthy speechKey) || bool_decide (speechKey = Some (lit "your_azure_speech_key_here"))
  then KeyNotSet
  else if negb (truthy speechRegion) ||
          bool_decide (speechRegion = Some (lit "your_azure_region_here"))
  then RegionNotSet
  else Found (default [] speechKey) (default [] speechRegion).

(** What the script writes to [embedded-config.json] (lines 54-71) when the
    checks pass and the build goes through: the two strings, which
    [JSON.stringify] and the [JSON.parse] of electron/main.ts give back
    unchanged. [None] when a check ends the script. *)
Definition embeddedConfig (envContent : jsstring) : option (jsstring * jsstring) :=
  match checkCredentials (parseEnv envContent) with
  | Found speechKey speechRegion => Some (speechKey, speechRegion)
  | _ => None
  end.

(** electron/main.ts, lines 13-28 and 80-81: the credentials of the running
    application, from the configuration file beside it ([None] when there is
    no file) and the two environment variables. *)
Definition loadCredentials (config : option (jsstring * jsstring))
    (envKey envRegion : option jsstring) : Token.Credentials :=
  match config with
  | Some (speechKey, speechRegion) =>
      Token.mkCredentials envKey envRegion
        (Token.orElse (Some speechKey) []) (Token.orElse (Some speechRegion) [])
  | None => Token.mkCredentials envKey envRegion [] []
  end.

(** A string of white space only. *)
Definition blank (s : jsstring) : Prop := Forall (fun c => isWhiteSpace c = true) s.

End EnvFile.

(** * Vocabulary of the properties *)

(** ** Events by kind *)

Definition isTick (e : Event) : bool :=
  match e with ETick _ _ _ _ => true | _ => false end.

Definition isTimer (e : Event) : bool :=
  match e with ETick _ _ _ _ | EIndicatorTimeout => true | _ => false end.

Definition isClear (e : Event) : bool :=
  match e with EClear => true | _ => false end.

(** An interim event the recognizing handler acts on: the reason is
    [TranslatingSpeech] and the text is truthy. *)
Definition isInterim (e : Event) : bool :=
  match e with
  | ERecognizing true (Some (_ :: _)) _ => true
  | _ => false
  end.

(** The events whose callback runs [stopTranslator]: the Stop button, a
    cancellation with an error reason, and a failed recognition start. *)
Definition stops (e : Event) : bool :=
  match e with
  | EStop | ECanceled true _ | ERecognitionStartFailed _ => true
  | _ => false
  end.

(** The events whose callback can set the status to Listening or Translating. *)
Definition activates (e : Event) : bool :=
  match e with
  | EStart _ _ | ERecognizing _ _ _ => true
  | _ => false
  end.

(** ** Two states to run examples from *)

(** A session that has just started: the hook was mounted, [startTranslator]
    was called at clock reading 1000 and its [try] block completed. *)
Definition startedState : State :=
  run [EStart true 1000; EStartSettled StartOk] initialState.

(** A started session whose live line shows "foo". *)
Definition fooState : State :=
  handle (ERecognizing true (Some (lit "foo")) 1500) startedState.

Definition texts (s : State) : list jsstring := map text (transcript s).


(** ** Frames *)

(** Two states that agree on every cell but the three of the timer
    ([silenceTimerRef], the scheduled intervals, the next handle). *)
Definition sameEngine (s s' : State) : Prop :=
  status s' = status s /\ transcript s' = transcript s /\
  interimText s' = interimText s /\ lastCommitted s' = lastCommitted s /\
  errorMessage s' = errorMessage s /\ silenceCommitted s' = silenceCommitted s /\
  latencyMs s' = latencyMs s /\ recognizerRef s' = recognizerRef s /\
  mediaStreamRef s' = mediaStreamRef s /\ audioContextRef s' = audioContextRef s /\
  processorRef s' = processorRef s /\ pushStreamRef s' = pushStreamRef s /\
  lastUpdateTimeRef s' = lastUpdateTimeRef s /\
  lastCommittedTextRef s' = lastCommittedTextRef s /\
  currentInterimRef s' = currentInterimRef s /\
  lastEventTimeRef s' = lastEventTimeRef s /\
  pendingTimeouts s' = pendingTimeouts s.

(** ** Silence commit *)

(** The commit condition of the specification, on the cells the callback reads. *)
Definition silenceCondition (now : Z) (s : State) : Prop :=
  now - lastUpdateTimeRef s >= 700 /\
  trim (currentInterimRef s) <> [] /\
  trim (currentInterimRef s) <> lastCommittedTextRef s.

(** The sentence-terminal marks of the specification, as code units:
    . ? ! and U+2026, U+3002, U+FF1F, U+FF01. *)
Definition terminalMarks : list N :=
  [46; 63; 33; 0x2026; 0x3002; 0xFF1F; 0xFF01]%N.

(** Interim updates and poll ticks such that every tick comes less than
    [SILENCE_MS] after the latest update; [last] is the time of that update. *)
Fixpoint updatesKeepArriving (last : Z) (evs : list Event) : Prop :=
  match evs with
  | [] => True
  | ERecognizing true (Some (c :: t)) now :: evs' => updatesKeepArriving now evs'
  | ETick _ now _ _ :: evs' => now - last < 700 /\ updatesKeepArriving last evs'
  | _ :: _ => False
  end.

(** ** The silence timer *)

(** The intervals a ref accounts for. *)
Definition heldBy (r : option nat) : gset nat :=
  match r with
  | Some t => {[t]}
  | None => ∅
  end.

(** No interval is scheduled besides the one [silenceTimerRef] holds, and the
    ref holds one only while the status is Listening or Translating. *)
Definition timerInv (s : State) : Prop :=
  liveIntervals s = heldBy (silenceTimerRef s) /\
  (is_Some (silenceTimerRef s) -> isActive (status s) = true).

(** The handles of the scheduled intervals were handed out at or after
    [n], and before the next one. *)
Definition handlesFrom (n : nat) (s : State) : Prop :=
  (n <= nextTimerId s)%nat /\
  forall t, t ∈ liveIntervals s -> (n <= t < nextTimerId s)%nat.

(** A poll tick of an interval whose handle is [n] or a later one. *)
Definition tickFrom (n : nat) (e : Event) : Prop :=
  match e with
  | ETick timer _ _ _ => (n <= timer)%nat
  | _ => True
  end.

(** What a callback does to the timer: nothing, or it clears it and leaves a
    status that is neither Listening nor Translating. *)
Definition timerKept (s s' : State) : Prop :=
  silenceTimerRef s' = silenceTimerRef s /\ liveIntervals s' = liveIntervals s.

Definition timerCleared (s s' : State) : Prop :=
  silenceTimerRef s' = None /\
  liveIntervals s' = liveIntervals s ∖ heldBy (silenceTimerRef s) /\
  isActive (status s') = false.

(** ** Item ids *)

(** Whether a callback appends an item when it runs in [s]: a final event
    that passes the test of line 620, a poll tick that passes the one of
    lines 462-466. *)
Definition commits (e : Event) (s : State) : bool :=
  match e with
  | ERecognized translated (Some t) _ _ _ =>
      translated && truthy (Some t) && bool_decide (trim t ≠ lastCommittedTextRef s)
  | ETick _ now _ _ => silenceDetected now s
  | _ => false
  end.



(** Events handled from [s] none of which appends an item. *)
Fixpoint commitFree (evs : list Event) (s : State) : Prop :=
  match evs with
  | [] => True
  | e :: evs' => commits e s = false /\ commitFree evs' (handle e s)
  end.

(** ** Latency *)

(** Events that are neither an interim event nor a stop: they come and go
    between two interim events of one session. *)
Definition betweenInterims (e : Event) : Prop :=
  stops e = false /\ isInterim e = false.

(** The number of interim events since the last [stopTranslator] (or since the
    hook was mounted), counting on from [n]. *)
Definition countInterim (n : nat) (e : Event) : nat :=
  if stops e then 0%nat else if isInterim e then S n else n.

Fixpoint interimsSinceStop (n : nat) (evs : list Event) : nat :=
  match evs with
  | [] => n
  | e :: evs' => interimsSinceStop (countInterim n e) evs'
  end.

(** With no interim event since the last stop there is no previous-event time,
    and with at most one there is no sample. *)
Definition latencyInv (n : nat) (s : State) : Prop :=
  (n = 0%nat -> lastEventTimeRef s = 0) /\ ((n <= 1)%nat -> latencyMs s = None).

(** ** Committed text *)

(** A string without white space at either end, the shape [trim] returns. *)
Definition trimmedShape (t : jsstring) : Prop :=
  match t with
  | [] => True
  | c :: _ => isWhiteSpace c = false /\ exists d, last t = Some d /\ isWhiteSpace d = false
  end.

(** A live line that holds nothing to commit: empty, or white space only. *)
Definition blankLine (s : State) : Prop := trim (currentInterimRef s) = [].

(** The cells of a session's resources: recognizer, audio pipeline, timer. *)
Definition released (s : State) : Prop :=
  recognizerRef s = false /\ pushStreamRef s = false /\ processorRef s = false /\
  audioContextRef s = false /\ mediaStreamRef s = false /\ silenceTimerRef s = None.

(** What a stop or a failed start must not touch: the transcript and the
    record of the text committed last. *)
Definition sameRecord (s s' : State) : Prop :=
  transcript s' = transcript s /\ lastCommitted s' = lastCommitted s /\
  lastCommittedTextRef s' = lastCommittedTextRef s.

(** The two ways a start fails: the SDK is missing when no recognizer is
    owned, or the [try] block throws. *)
Definition startFails (e : Event) (s : State) : Prop :=
  (exists now, e = EStart false now /\ recognizerRef s = false) \/
  (exists message, e = EStartSettled (StartThrows message)).

(** The indicator is on only while a timeout that turns it off is pending. *)
Definition indicatorInv (s : State) : Prop :=
  silenceCommitted s = true -> (0 < pendingTimeouts s)%nat.

(** The text of the last transcript item, [""] for an empty transcript. *)
Definition lastLine (s : State) : jsstring :=
  match last (transcript s) with
  | Some item => text item
  | None => []
  end.

(** * Properties *)

(** ** Frame lemmas *)

(** Running a block of assignments and reading cells of the result: only the
    setters, the sequencing and the projections are unfolded. *)
Ltac run_assignments :=
  cbn beta iota zeta delta
    [seq skip
     setStatus setTranscript setInterimText setLastCommitted setErrorMessage
     setSilenceCommitted setLatencyMs set_recognizerRef set_mediaStreamRef
     set_audioContextRef set_processorRef set_pushStreamRef
     set_lastUpdateTimeRef set_silenceTimerRef set_lastCommittedTextRef
     set_currentInterimRef set_lastEventTimeRef set_liveIntervals
     set_nextTimerId set_pendingTimeouts
     status transcript interimText lastCommitted errorMessage
     silenceCommitted latencyMs recognizerRef mediaStreamRef audioContextRef
     processorRef pushStreamRef lastUpdateTimeRef silenceTimerRef
     lastCommittedTextRef currentInterimRef lastEventTimeRef liveIntervals
     nextTimerId pendingTimeouts] in *.

Lemma sameEngine_refl s : sameEngine s s.
Proof. repeat split. Qed.

Lemma sameEngine_trans s1 s2 s3 :
  sameEngine s1 s2 -> sameEngine s2 s3 -> sameEngine s1 s3.
Proof.
  unfold sameEngine. intros H12 H23.
  repeat match goal with H : _ /\ _ |- _ => destruct H as [? H] end.
  repeat split; congruence.
Qed.

Lemma clearSilenceTimer_sameEngine s : sameEngine s (clearSilenceTimer s).
Proof.
  unfold clearSilenceTimer. destruct (silenceTimerRef s); repeat split.
Qed.

Lemma startSilenceTimer_sameEngine s : sameEngine s (startSilenceTimer s).
Proof. repeat split. Qed.

Lemma silenceEffect_sameEngine s : sameEngine s (silenceEffect s).
Proof.
  unfold silenceEffect. destruct (negb _);
    [apply clearSilenceTimer_sameEngine|apply startSilenceTimer_sameEngine].
Qed.

Lemma render_sameEngine prev s : sameEngine s (render prev s).
Proof.
  unfold render. case_bool_decide; [apply sameEngine_refl|].
  unfold seq. eapply sameEngine_trans; [|apply silenceEffect_sameEngine].
  destruct (isActive prev); [apply clearSilenceTimer_sameEngine|apply sameEngine_refl].
Qed.

Lemma render_same_status s : render (status s) s = s.
Proof. unfold render. rewrite bool_decide_eq_true_2; reflexivity. Qed.

Lemma handle_status e s : status (handle e s) = status (callback e s).
Proof. unfold handle. apply render_sameEngine. Qed.

Lemma handle_transcript e s : transcript (handle e s) = transcript (callback e s).
Proof. unfold handle. apply render_sameEngine. Qed.

Lemma handle_lastUpdateTimeRef e s :
  lastUpdateTimeRef (handle e s) = lastUpdateTimeRef (callback e s).
Proof. unfold handle. apply render_sameEngine. Qed.

Lemma handle_latencyMs e s : latencyMs (handle e s) = latencyMs (callback e s).
Proof. unfold handle. apply render_sameEngine. Qed.

Lemma handle_lastEventTimeRef e s :
  lastEventTimeRef (handle e s) = lastEventTimeRef (callback e s).
Proof. unfold handle. apply render_sameEngine. Qed.

Lemma handle_lastCommittedTextRef e s :
  lastCommittedTextRef (handle e s) = lastCommittedTextRef (callback e s).
Proof. unfold handle. apply render_sameEngine. Qed.

(** A callback that leaves the status alone is followed by no effect. *)
Lemma handle_same_status e s :
  status (callback e s) = status s -> handle e s = callback e s.
Proof. intros H. unfold handle. rewrite <- H. apply render_same_status. Qed.

(** ** The live line and its ref

    The interval callback reads [currentInterimRef], the ref the hook keeps
    next to the state cell [interimText]. Every callback writes the two
    together; the [catch] of [startTranslator] alone empties only the ref, at a
    point where a session that started in order has not shown any text yet. *)

Lemma cleanupRecognizer_live_line s :
  interimText (cleanupRecognizer s) = interimText s /\
  currentInterimRef (cleanupRecognizer s) = [].
Proof.
  unfold cleanupRecognizer, clearSilenceTimer.
  destruct (silenceTimerRef s) eqn:E; run_assignments; rewrite ?E; split; reflexivity.
Qed.

Lemma stopTranslator_live_line s :
  interimText (stopTranslator s) = [] /\ currentInterimRef (stopTranslator s) = [].
Proof.
  destruct (cleanupRecognizer_live_line s) as [_ Href].
  unfold stopTranslator. run_assignments. split; [reflexivity|exact Href].
Qed.

Lemma live_line_in_sync (e : Event) (s : State) :
  interimText s = currentInterimRef s ->
  (forall message, e = EStartSettled (StartThrows message) -> interimText s = []) ->
  interimText (handle e s) = currentInterimRef (handle e s).
Proof.
  intros Hsync Hcatch. unfold handle.
  destruct (render_sameEngine (status s) (callback e s))
    as (_&_&->&_&_&_&_&_&_&_&_&_&_&_&->&_).
  destruct e as [sdk now|o|tr txt now|tr txt idNow ts upd|isErr d|err|tm now idNow ts| | | |];
    cbn [callback].
  - unfold startTranslator. destruct (recognizerRef s), sdk; try exact Hsync; reflexivity.
  - destruct o as [|message]; unfold startTranslatorTry; [exact Hsync|].
    change ((?a >>> ?b >>> cleanupRecognizer) s)
      with (cleanupRecognizer ((a >>> b) s)).
    destruct (cleanupRecognizer_live_line ((setErrorMessage
      (Some (if truthy message then default [] message
             else lit "Failed to start translation")) >>> setStatus Error) s))
      as [-> ->].
    apply (Hcatch message eq_refl).
  - unfold recognizing. destruct txt as [t|]; [|exact Hsync].
    destruct (tr && truthy (Some t)); [|exact Hsync].
    destruct (latencySample _ _); reflexivity.
  - unfold recognized. destruct txt as [t|]; [|exact Hsync].
    destruct (_ && _); [reflexivity|exact Hsync].
  - unfold canceled. destruct isErr; [|exact Hsync]. unfold seq.
    destruct (stopTranslator_live_line (setErrorMessage
      (Some (lit "Speech Error: " ++ d)) s)) as [-> ->]. reflexivity.
  - unfold recognitionStartFailed, seq.
    destruct (stopTranslator_live_line (setErrorMessage
      (Some (lit "Failed to start: " ++ err)) s)) as [-> ->]. reflexivity.
  - unfold checkSilence. destruct (silenceDetected now s); [reflexivity|exact Hsync].
  - exact Hsync.
  - destruct (stopTranslator_live_line s) as [-> ->]. reflexivity.
  - reflexivity.
  - exact Hsync.
Qed.

(** ** Silence commit *)

Lemma silenceDetected_iff now s :
  silenceDetected now s = true <-> silenceCondition now s.
Proof.
  unfold silenceDetected, silenceCondition, SILENCE_MS.
  rewrite !andb_true_iff, Z.leb_le, Nat.ltb_lt, bool_decide_eq_true.
  destruct (trim (currentInterimRef s)) as [|c t]; cbn [length].
  - split; [intros [[_ H] _]; lia|intros (_ & H & _); congruence].
  - split; [intros [[H _] H']|intros (H & _ & H')]; repeat split;
      try lia; try discriminate; exact H'.
Qed.

Lemma silenceDetected_false_iff now s :
  silenceDetected now s = false <-> ~ silenceCondition now s.
Proof.
  rewrite <- silenceDetected_iff.
  destruct (silenceDetected now s); split; congruence.
Qed.

Lemma isSentenceEnd_iff c : isSentenceEnd c = true <-> In c terminalMarks.
Proof.
  unfold isSentenceEnd, terminalMarks. rewrite !orb_true_iff, !N.eqb_eq.
  cbn [In]. intuition congruence.
Qed.

Lemma endsWithPunctuation_iff t :
  endsWithPunctuation t = true <-> exists c, last t = Some c /\ In c terminalMarks.
Proof.
  unfold endsWithPunctuation. destruct (last t) as [c|].
  - rewrite isSentenceEnd_iff. split; [eauto|]. intros (c' & [= <-] & H). exact H.
  - split; [discriminate|]. intros (c & [=] & _).
Qed.

Lemma recognizing_interim (s : State) (c : N) (t : jsstring) (now : Z) :
  recognizing true (Some (c :: t)) now s =
  ((match latencySample (lastEventTimeRef s) now with
    | Some delta => setLatencyMs (Some delta)
    | None => skip
    end) >>>
   set_lastEventTimeRef now >>> setStatus Translating >>>
   setInterimText (c :: t) >>> set_currentInterimRef (c :: t) >>>
   set_lastUpdateTimeRef now) s.
Proof. reflexivity. Qed.

Lemma checkSilence_quiet now idNow ts s :
  ~ silenceCondition now s -> checkSilence now idNow ts s = s.
Proof.
  intros H. apply silenceDetected_false_iff in H. unfold checkSilence.
  rewrite H. reflexivity.
Qed.

Lemma no_premature_commit evs : forall s,
  updatesKeepArriving (lastUpdateTimeRef s) evs ->
  transcript (run evs s) = transcript s.
Proof.
  induction evs as [|e evs IH]; intros s H; [reflexivity|].
  destruct e as [| |[|] [[|c t]|] now| | | |tm now idNow ts| | | |];
    cbn [updatesKeepArriving] in H; try tauto.
  - cbn [run]. rewrite IH.
    + rewrite handle_transcript. cbn [callback]. rewrite recognizing_interim.
      destruct (latencySample _ _); reflexivity.
    + rewrite handle_lastUpdateTimeRef. cbn [callback]. rewrite recognizing_interim.
      destruct (latencySample _ _); exact H.
  - destruct H as [Hgap H]. cbn [run].
    assert (Hs : handle (ETick tm now idNow ts) s = s).
    { unfold handle. cbn [callback]. rewrite checkSilence_quiet.
      - apply render_same_status.
      - unfold silenceCondition. lia. }
    rewrite Hs. apply IH, H.
Qed.

(** C1. On every poll tick the callback commits exactly when at least 700ms
    have passed since the last update, the trimmed interim text is non-empty and
    it differs from the text committed last; the committed text is the trimmed
    interim text, with a full stop appended exactly when it does not end in one
    of the sentence-terminal marks; and while updates keep arriving with gaps
    below 700ms no tick commits anything. *)
Theorem silence_commit_rule (s : State) (now idNow : Z) (ts : jsstring) :
  let t := trim (currentInterimRef s) in
  let s' := checkSilence now idNow ts s in
  (transcript s' <> transcript s <-> silenceCondition now s) /\
  (silenceCondition now s ->
     exists committed,
       transcript s' = transcript s ++ [mkItem idNow ts committed] /\
       ((exists c, last t = Some c /\ In c terminalMarks) -> committed = t) /\
       (~ (exists c, last t = Some c /\ In c terminalMarks) -> committed = t ++ lit ".") /\
       lastCommittedTextRef s' = committed /\ lastCommitted s' = committed /\
       currentInterimRef s' = [] /\ interimText s' = [] /\
       lastUpdateTimeRef s' = now /\ silenceCommitted s' = true) /\
  (~ silenceCondition now s -> s' = s) /\
  (forall evs, updatesKeepArriving (lastUpdateTimeRef s) evs ->
     transcript (run evs s) = transcript s).
Proof.
  intros t s'. subst s'. unfold checkSilence.
  destruct (silenceDetected now s) eqn:E.
  - apply silenceDetected_iff in E. split; [|split; [|split]].
    + split; [auto|]. intros _. run_assignments.
      intros Heq. apply (f_equal (@length _)) in Heq. rewrite length_app in Heq.
      cbn [length] in Heq. lia.
    + intros _. exists (punctuate t). run_assignments. fold t.
      repeat split; try reflexivity.
      * intros Hc. apply endsWithPunctuation_iff in Hc. unfold punctuate.
        rewrite Hc. reflexivity.
      * intros Hc. unfold punctuate.
        destruct (endsWithPunctuation t) eqn:Ep; [|reflexivity].
        apply endsWithPunctuation_iff in Ep. contradiction.
    + intros Hn. contradiction.
    + intros evs. apply no_premature_commit.
  - apply silenceDetected_false_iff in E. split; [|split; [|split]].
    + split; [congruence|contradiction].
    + intros Hc. contradiction.
    + reflexivity.
    + intros evs. apply no_premature_commit.
Qed.

(** ** Final events *)

Lemma recognized_final (s : State) (c : N) (t : jsstring)
    (idNow : Z) (ts : jsstring) (updNow : Z) :
  recognized true (Some (c :: t)) idNow ts updNow s =
  if bool_decide (trim (c :: t) ≠ lastCommittedTextRef s) then
    (setTranscript (transcript s ++ [mkItem idNow ts (c :: t)]) >>>
     setLastCommitted (c :: t) >>> setInterimText [] >>>
     set_currentInterimRef [] >>> set_lastCommittedTextRef (c :: t) >>>
     set_lastUpdateTimeRef updNow) s
  else s.
Proof. reflexivity. Qed.

(** A final event whose text carries no surrounding white space is recorded
    as it was compared, so the same text arriving again is dropped. *)
Lemma recognized_twice_trimmed (s : State) (t : jsstring)
    (id1 id2 upd1 upd2 : Z) (ts1 ts2 : jsstring) :
  trim t = t ->
  let s1 := handle (ERecognized true (Some t) id1 ts1 upd1) s in
  handle (ERecognized true (Some t) id2 ts2 upd2) s1 = s1.
Proof.
  intros Ht s1.
  assert (Hcb : callback (ERecognized true (Some t) id2 ts2 upd2) s1 = s1).
  { cbn [callback]. destruct t as [|c t]; [reflexivity|].
    rewrite recognized_final. case_bool_decide as Hne; [|reflexivity].
    exfalso. apply Hne. rewrite Ht. subst s1.
    rewrite handle_lastCommittedTextRef. cbn [callback]. rewrite recognized_final.
    case_bool_decide as Hne2; [reflexivity|].
    congruence. }
  unfold handle. rewrite Hcb. apply render_same_status.
Qed.

(** With surrounding white space the recorded text differs from the trimmed
    one the next event is compared by, so the repetition is appended again. *)
Lemma recognized_twice_padded (s : State) (t : jsstring)
    (id1 id2 upd1 upd2 : Z) (ts1 ts2 : jsstring) :
  t <> [] -> trim t <> t -> trim t <> lastCommittedTextRef s ->
  let s1 := handle (ERecognized true (Some t) id1 ts1 upd1) s in
  let s2 := handle (ERecognized true (Some t) id2 ts2 upd2) s1 in
  lastCommittedTextRef s1 = t /\
  transcript s2 = transcript s ++ [mkItem id1 ts1 t; mkItem id2 ts2 t].
Proof.
  intros Hne Hpad Hnew. cbv zeta. destruct t as [|c t]; [congruence|].
  assert (H1 : lastCommittedTextRef (handle (ERecognized true (Some (c :: t)) id1 ts1 upd1) s)
               = c :: t /\
               transcript (handle (ERecognized true (Some (c :: t)) id1 ts1 upd1) s)
               = transcript s ++ [mkItem id1 ts1 (c :: t)]).
  { rewrite handle_lastCommittedTextRef, handle_transcript. cbn [callback].
    rewrite recognized_final, bool_decide_eq_true_2 by exact Hnew.
    split; reflexivity. }
  destruct H1 as [Href Htr]. split; [exact Href|].
  rewrite handle_transcript. cbn [callback].
  rewrite recognized_final, bool_decide_eq_true_2 by (rewrite Href; exact Hpad).
  run_assignments. rewrite Htr, <- app_assoc. reflexivity.
Qed.

(** C2, at its failing input. Two consecutive final events carry the same text
    "hi " (a trailing space): the recognized handler compares the trimmed text
    with the text committed last but records the untrimmed one, so the second
    event is not recognised as a repetition and both are appended. *)
Theorem padded_final_appended_twice :
  let hi := lit "hi " in
  let ts := lit "10:00:00" in
  let s1 := handle (ERecognized true (Some hi) 2000 ts 2000) startedState in
  let s2 := handle (ERecognized true (Some hi) 3000 ts 3000) s1 in
  trim hi = lit "hi" /\
  lastCommittedTextRef s1 = lit "hi " /\
  transcript s1 = [mkItem 2000 ts hi] /\
  transcript s2 = [mkItem 2000 ts hi; mkItem 3000 ts hi].
Proof. vm_compute. repeat split. Qed.

(** ** Clearing the transcript *)

(** C3, as stated, fails: with "foo" on the live line, [clearTranscript] does
    not leave [interimText] unchanged but empties it. *)
Lemma clearTranscript_discards_live_line :
  interimText fooState = lit "foo" /\
  interimText (clearTranscript fooState) = [] /\
  interimText (clearTranscript fooState) <> interimText fooState.
Proof. vm_compute. repeat split. discriminate. Qed.

(** C3, amended. [clearTranscript] empties the transcript sequence, resets the
    text committed last (state cell and ref) and also empties the live line
    (state cell and ref); the status and each of the fourteen other cells (the
    error message, the indicator, the latency, the recognizer and the four
    refs of the audio pipeline, the two clock readings, the timer ref, the
    scheduled intervals, the next handle and the pending timeouts) are left as
    they were, and no render effect follows. *)
Theorem clearTranscript_effect (s : State) :
  let s' := clearTranscript s in
  transcript s' = [] /\
  lastCommittedTextRef s' = [] /\ lastCommitted s' = [] /\
  interimText s' = [] /\ currentInterimRef s' = [] /\
  status s' = status s /\
  errorMessage s' = errorMessage s /\ silenceCommitted s' = silenceCommitted s /\
  latencyMs s' = latencyMs s /\ recognizerRef s' = recognizerRef s /\
  mediaStreamRef s' = mediaStreamRef s /\ audioContextRef s' = audioContextRef s /\
  processorRef s' = processorRef s /\ pushStreamRef s' = pushStreamRef s /\
  lastUpdateTimeRef s' = lastUpdateTimeRef s /\
  lastEventTimeRef s' = lastEventTimeRef s /\
  silenceTimerRef s' = silenceTimerRef s /\ liveIntervals s' = liveIntervals s /\
  nextTimerId s' = nextTimerId s /\ pendingTimeouts s' = pendingTimeouts s /\
  s' = mkState (status s) [] [] [] (errorMessage s) (silenceCommitted s) (latencyMs s)
         (recognizerRef s) (mediaStreamRef s) (audioContextRef s) (processorRef s)
         (pushStreamRef s) (lastUpdateTimeRef s) (silenceTimerRef s) [] []
         (lastEventTimeRef s) (liveIntervals s) (nextTimerId s) (pendingTimeouts s) /\
  handle EClear s = s'.
Proof.
  cbv zeta. rewrite handle_same_status by reflexivity. repeat split.
Qed.

(** ** Cancellation *)

(** C4, as stated, fails: after a cancellation with an error reason the status
    is [Idle], not [Error]. *)
Lemma canceled_status_is_Idle :
  let s' := handle (ECanceled true (lit "Connection lost")) fooState in
  status fooState = Translating /\ status s' = Idle /\ status s' <> Error.
Proof. vm_compute. repeat split. discriminate. Qed.

Lemma stopTranslator_cells (s : State) :
  let s' := stopTranslator s in
  status s' = Idle /\ interimText s' = [] /\ currentInterimRef s' = [] /\
  latencyMs s' = None /\ lastEventTimeRef s' = 0 /\
  recognizerRef s' = false /\ silenceTimerRef s' = None /\
  transcript s' = transcript s /\ errorMessage s' = errorMessage s /\
  lastCommittedTextRef s' = lastCommittedTextRef s.
Proof.
  cbv zeta. unfold stopTranslator, cleanupRecognizer, clearSilenceTimer.
  destruct (silenceTimerRef s) eqn:E; run_assignments; rewrite ?E; repeat split.
Qed.

(** C4, amended. A cancellation with an error reason stores the message
    "Speech Error: " followed by the error details and stops the session: the
    status becomes [Idle], the live line (state cell and ref) is emptied without
    being appended to the transcript, and the recognizer is released. *)
Theorem canceled_with_error_effect (s : State) (errorDetails : jsstring) :
  let s' := handle (ECanceled true errorDetails) s in
  status s' = Idle /\
  errorMessage s' = Some (lit "Speech Error: " ++ errorDetails) /\
  interimText s' = [] /\ currentInterimRef s' = [] /\
  transcript s' = transcript s /\
  lastCommittedTextRef s' = lastCommittedTextRef s /\
  recognizerRef s' = false.
Proof.
  intros s'. subst s'. unfold handle.
  destruct (render_sameEngine (status s) (callback (ECanceled true errorDetails) s))
    as (->&->&->&_&->&_&_&->&_&_&_&_&_&->&->&_).
  cbn [callback]. unfold canceled, seq.
  destruct (stopTranslator_cells
              (setErrorMessage (Some (lit "Speech Error: " ++ errorDetails)) s))
    as (->&->&->&_&_&->&_&->&->&->).
  repeat split.
Qed.

(** ** The transcript is append-only *)

Lemma cleanupRecognizer_transcript s :
  transcript (cleanupRecognizer s) = transcript s.
Proof.
  unfold cleanupRecognizer, clearSilenceTimer.
  destruct (silenceTimerRef s) eqn:E; run_assignments; rewrite ?E; reflexivity.
Qed.

Lemma callback_transcript (e : Event) (s : State) :
  match e with
  | ERecognized _ _ idNow ts _ | ETick _ _ idNow ts =>
      transcript (callback e s) = transcript s \/
      exists t, transcript (callback e s) = transcript s ++ [mkItem idNow ts t]
  | EClear => transcript (callback e s) = []
  | _ => transcript (callback e s) = transcript s
  end.
Proof.
  destruct e as [sdk now|o|tr txt now|tr txt idNow ts upd|isErr d|err|tm now idNow ts| | | |];
    cbn [callback].
  - unfold startTranslator. destruct (recognizerRef s), sdk; reflexivity.
  - destruct o; unfold startTranslatorTry; [reflexivity|].
    unfold seq at 1. rewrite cleanupRecognizer_transcript. reflexivity.
  - unfold recognizing. destruct txt as [t|]; [|reflexivity].
    destruct (tr && truthy (Some t)); [|reflexivity].
    destruct (latencySample _ _); reflexivity.
  - unfold recognized. destruct txt as [t|]; [|left; reflexivity].
    destruct (_ && _); [right; exists t|left]; reflexivity.
  - unfold canceled. destruct isErr; [|reflexivity].
    unfold seq. destruct (stopTranslator_cells (setErrorMessage
      (Some (lit "Speech Error: " ++ d)) s)) as (_&_&_&_&_&_&_&->&_). reflexivity.
  - unfold recognitionStartFailed, seq. destruct (stopTranslator_cells (setErrorMessage
      (Some (lit "Failed to start: " ++ err)) s)) as (_&_&_&_&_&_&_&->&_). reflexivity.
  - unfold checkSilence. destruct (silenceDetected now s); [right|left; reflexivity].
    eexists; reflexivity.
  - reflexivity.
  - destruct (stopTranslator_cells s) as (_&_&_&_&_&_&_&->&_). reflexivity.
  - reflexivity.
  - reflexivity.
Qed.

Lemma transcript_grows evs : forall s,
  Forall (fun e => isClear e = false) evs ->
  exists appended, transcript (run evs s) = transcript s ++ appended.
Proof.
  induction evs as [|e evs IH]; intros s Hev.
  - exists []. cbn [run]. rewrite app_nil_r. reflexivity.
  - inversion Hev as [|? ? He Hev']; subst.
    destruct (IH (handle e s) Hev') as [app2 Happ2]. cbn [run]. rewrite Happ2.
    rewrite handle_transcript. pose proof (callback_transcript e s) as Hcb.
    destruct e; try discriminate He;
      try (rewrite Hcb; exists app2; reflexivity);
      (destruct Hcb as [->|[t ->]];
        [exists app2; reflexivity|eexists; rewrite <- app_assoc; reflexivity]).
Qed.

(** C5. Whatever event is handled, the transcript afterwards is the transcript
    before, or the transcript before with exactly one new item at its end (only
    a final event or a poll tick does that, and the item carries the event's
    clock reading and time string), or, for [clearTranscript] alone, the empty
    sequence; so along every run without [clearTranscript] the earlier
    transcript stays in place as a prefix, in commit order. *)
Theorem transcript_append_only (e : Event) (s : State) :
  (match e with
   | ERecognized _ _ idNow ts _ | ETick _ _ idNow ts =>
       transcript (handle e s) = transcript s \/
       exists t, transcript (handle e s) = transcript s ++ [mkItem idNow ts t]
   | EClear => transcript (handle e s) = []
   | _ => transcript (handle e s) = transcript s
   end) /\
  (forall evs, Forall (fun e' => isClear e' = false) evs ->
     exists appended, transcript (run evs s) = transcript s ++ appended).
Proof.
  split.
  - rewrite handle_transcript. apply callback_transcript.
  - intros evs. apply transcript_grows.
Qed.

(** ** Latency samples *)

Lemma cleanupRecognizer_latency s :
  lastEventTimeRef (cleanupRecognizer s) = lastEventTimeRef s /\
  latencyMs (cleanupRecognizer s) = latencyMs s.
Proof.
  unfold cleanupRecognizer, clearSilenceTimer.
  destruct (silenceTimerRef s) eqn:E; run_assignments; rewrite ?E; split; reflexivity.
Qed.

Lemma callback_latency_frame (e : Event) (s : State) :
  stops e = false -> isInterim e = false ->
  lastEventTimeRef (callback e s) = lastEventTimeRef s /\
  latencyMs (callback e s) = latencyMs s.
Proof.
  intros Hstop Hint.
  destruct e as [sdk now|o|tr txt now|tr txt idNow ts upd|isErr d|err|tm now idNow ts| | | |];
    try discriminate Hstop; cbn [callback].
  - unfold startTranslator. destruct (recognizerRef s), sdk; split; reflexivity.
  - destruct o as [|message]; unfold startTranslatorTry; [split; reflexivity|].
    change ((?a >>> ?b >>> cleanupRecognizer) s)
      with (cleanupRecognizer ((a >>> b) s)).
    destruct (cleanupRecognizer_latency ((setErrorMessage
      (Some (if truthy message then default [] message
             else lit "Failed to start translation")) >>> setStatus Error) s))
      as [-> ->].
    split; reflexivity.
  - unfold recognizing. destruct tr, txt as [[|c t]|]; try discriminate Hint;
      split; reflexivity.
  - unfold recognized. destruct txt as [t|]; [|split; reflexivity].
    destruct (_ && _); split; reflexivity.
  - destruct isErr; [discriminate Hstop|split; reflexivity].
  - unfold checkSilence. destruct (silenceDetected now s); split; reflexivity.
  - split; reflexivity.
  - split; reflexivity.
  - split; reflexivity.
Qed.

Lemma stops_latency (e : Event) (s : State) :
  stops e = true ->
  lastEventTimeRef (callback e s) = 0 /\ latencyMs (callback e s) = None.
Proof.
  intros He.
  destruct e as [| | | |[|] d|err| | | | |]; try discriminate He; cbn [callback].
  - unfold canceled, seq.
    destruct (stopTranslator_cells (setErrorMessage
      (Some (lit "Speech Error: " ++ d)) s)) as (_&_&_&->&->&_). split; reflexivity.
  - unfold recognitionStartFailed, seq.
    destruct (stopTranslator_cells (setErrorMessage
      (Some (lit "Failed to start: " ++ err)) s)) as (_&_&_&->&->&_). split; reflexivity.
  - destruct (stopTranslator_cells s) as (_&_&_&->&->&_). split; reflexivity.
Qed.

Lemma run_latency_frame evs : forall s,
  Forall betweenInterims evs ->
  lastEventTimeRef (run evs s) = lastEventTimeRef s /\
  latencyMs (run evs s) = latencyMs s.
Proof.
  induction evs as [|e evs IH]; intros s Hev; [split; reflexivity|].
  inversion Hev as [|? ? [Hstop Hint] Hev']; subst. cbn [run].
  destruct (IH (handle e s) Hev') as [-> ->].
  rewrite handle_lastEventTimeRef, handle_latencyMs.
  apply callback_latency_frame; assumption.
Qed.

Lemma latencySample_iff (lastEventTime now d : Z) :
  latencySample lastEventTime now = Some d <->
  0 < lastEventTime /\ d = now - lastEventTime /\ 50 <= d <= 2000.
Proof.
  unfold latencySample.
  destruct (0 <? lastEventTime) eqn:E0.
  - apply Z.ltb_lt in E0.
    destruct ((50 <=? now - lastEventTime) && (now - lastEventTime <=? 2000)) eqn:Er.
    + apply andb_true_iff in Er as [?%Z.leb_le ?%Z.leb_le].
      split; [intros [= <-]; lia|]. intros (_ & -> & _). reflexivity.
    + apply andb_false_iff in Er as [?%Z.leb_gt | ?%Z.leb_gt];
        (split; [discriminate|]); intros (_ & -> & ?); lia.
  - apply Z.ltb_ge in E0. split; [discriminate|]. lia.
Qed.

Lemma recognizing_interim_cells (s : State) (c : N) (t : jsstring) (now : Z) :
  let s' := handle (ERecognizing true (Some (c :: t)) now) s in
  lastEventTimeRef s' = now /\
  latencyMs s' = match latencySample (lastEventTimeRef s) now with
                 | Some delta => Some delta
                 | None => latencyMs s
                 end.
Proof.
  intros s'. subst s'. rewrite handle_lastEventTimeRef, handle_latencyMs.
  cbn [callback]. rewrite recognizing_interim.
  destruct (latencySample _ _); split; reflexivity.
Qed.

(** C6. Of two consecutive interim events of a session, at clock readings [t1]
    and [t2] (other events that are neither interim events nor stops may come
    between them), the second one reports the latency sample [t2 - t1] when
    that delta lies in [50, 2000] and reports nothing otherwise (the indicator
    keeps its value): 400 is reported as 400, 30 and 3000 report nothing. Clock
    readings are milliseconds since 1970 and as such positive. *)
Theorem latency_sample_in_range
    (s : State) (text1 text2 : jsstring) (t1 t2 : Z) (between : list Event) :
  0 < t1 -> text1 <> [] -> text2 <> [] -> Forall betweenInterims between ->
  let s1 := run between (handle (ERecognizing true (Some text1) t1) s) in
  let s2 := handle (ERecognizing true (Some text2) t2) s1 in
  let delta := t2 - t1 in
  (forall d, latencySample (lastEventTimeRef s1) t2 = Some d <->
             d = delta /\ 50 <= delta <= 2000) /\
  (50 <= delta <= 2000 -> latencyMs s2 = Some delta) /\
  (~ 50 <= delta <= 2000 ->
     latencySample (lastEventTimeRef s1) t2 = None /\ latencyMs s2 = latencyMs s1) /\
  (delta = 400 -> latencyMs s2 = Some 400) /\
  (delta = 30 \/ delta = 3000 ->
     latencySample (lastEventTimeRef s1) t2 = None /\ latencyMs s2 = latencyMs s1).
Proof.
  intros Ht1 H1 H2 Hbetween. cbv zeta.
  destruct text1 as [|c1 text1]; [congruence|].
  destruct text2 as [|c2 text2]; [congruence|].
  destruct (recognizing_interim_cells s c1 text1 t1) as [Hlast _].
  set (s0 := handle (ERecognizing true (Some (c1 :: text1)) t1) s) in *.
  destruct (run_latency_frame between s0 Hbetween) as [Hlast1 _].
  rewrite Hlast in Hlast1.
  set (s1 := run between s0) in *.
  destruct (recognizing_interim_cells s1 c2 text2 t2) as [_ Hlat].
  set (s2 := handle (ERecognizing true (Some (c2 :: text2)) t2) s1) in *.
  set (delta := t2 - t1). rewrite Hlast1 in *.
  assert (Hin : 50 <= delta <= 2000 -> latencyMs s2 = Some delta).
  { intros Hr. rewrite Hlat.
    replace (latencySample t1 t2) with (Some delta); [reflexivity|].
    symmetry. apply latencySample_iff. subst delta. lia. }
  assert (Hout : ~ 50 <= delta <= 2000 ->
                 latencySample t1 t2 = None /\ latencyMs s2 = latencyMs s1).
  { intros Hr. assert (Hnone : latencySample t1 t2 = None).
    { destruct (latencySample t1 t2) as [d|] eqn:E; [|reflexivity].
      apply latencySample_iff in E. subst delta. lia. }
    rewrite Hlat, Hnone. split; reflexivity. }
  split; [|split; [|split; [|split]]].
  - intros d. rewrite latencySample_iff. subst delta. split; intros; lia.
  - exact Hin.
  - exact Hout.
  - intros Hd. rewrite <- Hd. apply Hin. lia.
  - intros Hd. apply Hout. lia.
Qed.

Lemma latency_sample_in_range_witness :
  let between := [ETick 1 1100 1100 []; ERecognized true (Some (lit "Hola")) 1200 [] 1200] in
  let s1 := run between (handle (ERecognizing true (Some (lit "Hola")) 1000) startedState) in
  let s2 := handle (ERecognizing true (Some (lit "Hola mundo")) 1400) s1 in
  latencySample (lastEventTimeRef s1) 1400 = Some 400 /\ latencyMs s2 = Some 400.
Proof.
  intros between s1 s2.
  destruct (latency_sample_in_range startedState (lit "Hola") (lit "Hola mundo")
              1000 1400 between)
    as (Hs & Hin & _); [lia|discriminate|discriminate| |].
  - repeat constructor.
  - split; [apply Hs; lia|apply Hin; lia].
Defined.

(** ** The silence timer *)

Lemma clearSilenceTimer_cells s :
  silenceTimerRef (clearSilenceTimer s) = None /\
  liveIntervals (clearSilenceTimer s) = liveIntervals s ∖ heldBy (silenceTimerRef s).
Proof.
  unfold clearSilenceTimer. destruct (silenceTimerRef s) as [t|] eqn:E;
    run_assignments; rewrite ?E; cbn [heldBy]; split; try reflexivity.
  symmetry. apply difference_empty_L.
Qed.

Lemma startSilenceTimer_cells s :
  silenceTimerRef (startSilenceTimer s) = Some (nextTimerId s) /\
  liveIntervals (startSilenceTimer s) = liveIntervals s ∪ {[nextTimerId s]}.
Proof. split; reflexivity. Qed.

Lemma cleanupRecognizer_cells s :
  silenceTimerRef (cleanupRecognizer s) = None /\
  liveIntervals (cleanupRecognizer s) = liveIntervals s ∖ heldBy (silenceTimerRef s) /\
  status (cleanupRecognizer s) = status s.
Proof.
  destruct (clearSilenceTimer_cells s) as [Href Hlive].
  destruct (clearSilenceTimer_sameEngine s) as [Hst _].
  unfold cleanupRecognizer. run_assignments. auto.
Qed.

Lemma stopTranslator_timer s : timerCleared s (stopTranslator s).
Proof.
  destruct (cleanupRecognizer_cells s) as (Href & Hlive & _).
  unfold stopTranslator, timerCleared. run_assignments. auto.
Qed.

Lemma callback_timer (e : Event) (s : State) :
  timerKept s (callback e s) \/ timerCleared s (callback e s).
Proof.
  destruct e as [sdk now|o|tr txt now|tr txt idNow ts upd|isErr d|err|tm now idNow ts| | | |];
    cbn [callback].
  - left. unfold startTranslator. destruct (recognizerRef s), sdk; split; reflexivity.
  - destruct o as [|message]; unfold startTranslatorTry; [left; split; reflexivity|].
    right. unfold seq at 1.
    destruct (cleanupRecognizer_cells ((setErrorMessage
      (Some (if truthy message then default [] message
             else lit "Failed to start translation")) >>> setStatus Error) s))
      as (Href & Hlive & Hst).
    unfold timerCleared. rewrite Href, Hlive, Hst. repeat split.
  - left. unfold recognizing. destruct txt as [t|]; [|split; reflexivity].
    destruct (tr && truthy (Some t)); [|split; reflexivity].
    destruct (latencySample _ _); split; reflexivity.
  - left. unfold recognized. destruct txt as [t|]; [|split; reflexivity].
    destruct (_ && _); split; reflexivity.
  - unfold canceled. destruct isErr; [right|left; split; reflexivity].
    unfold seq. apply (stopTranslator_timer (setErrorMessage _ s)).
  - right. unfold recognitionStartFailed, seq.
    apply (stopTranslator_timer (setErrorMessage _ s)).
  - left. unfold checkSilence. destruct (silenceDetected now s); split; reflexivity.
  - left. split; reflexivity.
  - right. apply stopTranslator_timer.
  - left. split; reflexivity.
  - left. split; reflexivity.
Qed.

Lemma render_timerInv prev s :
  liveIntervals s = heldBy (silenceTimerRef s) ->
  (is_Some (silenceTimerRef s) -> isActive prev = true) ->
  (status s = prev -> is_Some (silenceTimerRef s) -> isActive (status s) = true) ->
  timerInv (render prev s).
Proof.
  intros Hlive Hprev Hsame. unfold render. case_bool_decide as Hst.
  - split; [exact Hlive|]. auto.
  - unfold seq.
    set (s1 := (if isActive prev then silenceEffectCleanup else skip) s).
    assert (H1 : silenceTimerRef s1 = None /\ liveIntervals s1 = ∅ /\ status s1 = status s).
    { subst s1. destruct (isActive prev) eqn:Ea.
      - unfold silenceEffectCleanup.
        destruct (clearSilenceTimer_cells s) as [-> ->].
        destruct (clearSilenceTimer_sameEngine s) as [-> _].
        rewrite Hlive. repeat split. apply difference_diag_L.
      - unfold skip. destruct (silenceTimerRef s) as [t|] eqn:E.
        + assert (false = true) by (apply Hprev; eauto). discriminate.
        + rewrite Hlive. repeat split. }
    destruct H1 as (Href1 & Hlive1 & Hst1).
    unfold silenceEffect. destruct (isActive (status s1)) eqn:Ea; cbn [negb].
    + destruct (startSilenceTimer_cells s1) as [Href2 Hlive2].
      destruct (startSilenceTimer_sameEngine s1) as [Hst2 _].
      split.
      * rewrite Href2, Hlive2, Hlive1. cbn [heldBy]. apply (left_id_L ∅ (∪)).
      * intros _. rewrite Hst2. exact Ea.
    + destruct (clearSilenceTimer_cells s1) as [Href2 Hlive2].
      split.
      * rewrite Href2, Hlive2, Hlive1. cbn [heldBy]. apply empty_difference_L.
      * rewrite Href2. intros [? [=]].
Qed.

Lemma handle_timerInv (e : Event) (s : State) : timerInv s -> timerInv (handle e s).
Proof.
  intros [Hlive Hact]. unfold handle.
  destruct (callback_timer e s) as [[Href' Hlive']|(Href' & Hlive' & Hst')].
  - apply render_timerInv.
    + rewrite Hlive', Href'. exact Hlive.
    + rewrite Href'. exact Hact.
    + intros Hst. rewrite Href', Hst. exact Hact.
  - apply render_timerInv.
    + rewrite Hlive', Href', Hlive. cbn [heldBy]. apply difference_diag_L.
    + rewrite Href'. intros [? [=]].
    + rewrite Href'. intros _ [? [=]].
Qed.

Lemma initialState_timerInv : timerInv initialState.
Proof. split; [reflexivity|]. intros [? [=]]. Qed.

Lemma reachable_timerInv s : reachable s -> timerInv s.
Proof.
  induction 1 as [|s e s' _ IH Hstep]; [apply initialState_timerInv|].
  destruct Hstep. apply handle_timerInv, IH.
Qed.

Lemma timerInv_inactive s :
  timerInv s -> isActive (status s) = false ->
  silenceTimerRef s = None /\ liveIntervals s = ∅.
Proof.
  intros [Hlive Hact] Hst. destruct (silenceTimerRef s) as [t|] eqn:E.
  - rewrite Hact in Hst by eauto. discriminate.
  - split; [reflexivity|exact Hlive].
Qed.

Lemma callback_stays_inactive (e : Event) (s : State) :
  activates e = false -> isActive (status s) = false ->
  isActive (status (callback e s)) = false.
Proof.
  intros He Hs.
  destruct (callback_timer e s) as [_|(_ & _ & H)]; [|exact H].
  destruct e as [sdk now|o|tr txt now|tr txt idNow ts upd|isErr d|err|tm now idNow ts| | | |];
    try discriminate He; cbn [callback].
  - destruct o; [exact Hs|].
    unfold startTranslatorTry, seq.
    destruct (cleanupRecognizer_cells (setStatus Error (setErrorMessage
      (Some (if truthy message then default [] message
             else lit "Failed to start translation")) s))) as (_ & _ & ->).
    reflexivity.
  - unfold recognized. destruct txt as [t|]; [|exact Hs].
    destruct (_ && _); exact Hs.
  - unfold canceled. destruct isErr; [|exact Hs].
    apply (stopTranslator_timer (setErrorMessage _ s)).
  - apply (stopTranslator_timer (setErrorMessage _ s)).
  - unfold checkSilence. destruct (silenceDetected now s); exact Hs.
  - exact Hs.
  - apply stopTranslator_timer.
  - exact Hs.
  - exact Hs.
Qed.

Lemma stops_handle (e : Event) (s : State) :
  stops e = true -> timerInv s ->
  status (handle e s) = Idle /\ silenceTimerRef (handle e s) = None /\
  liveIntervals (handle e s) = ∅.
Proof.
  intros He Hinv.
  assert (Hst : status (handle e s) = Idle).
  { rewrite handle_status.
    destruct e as [| | | |[|] d|err| | | | |]; try discriminate He; cbn [callback].
    - unfold canceled, seq. apply (stopTranslator_cells (setErrorMessage _ s)).
    - unfold recognitionStartFailed, seq. apply (stopTranslator_cells (setErrorMessage _ s)).
    - apply stopTranslator_cells. }
  split; [exact Hst|].
  apply timerInv_inactive; [apply handle_timerInv, Hinv|]. rewrite Hst. reflexivity.
Qed.

Lemma no_tick_while_inactive s evs s' :
  trace s evs s' -> timerInv s -> isActive (status s) = false ->
  Forall (fun e => activates e = false) evs ->
  Forall (fun e => isTick e = false) evs /\ liveIntervals s' = ∅.
Proof.
  induction 1 as [s|s e s1 evs s2 Hstep _ IH]; intros Hinv Hst Hev.
  - split; [constructor|]. apply timerInv_inactive; assumption.
  - inversion Hev as [|? ? He Hev']; subst.
    destruct Hstep as [Hen].
    destruct IH as [IH1 IH2].
    + apply handle_timerInv, Hinv.
    + rewrite handle_status. apply callback_stays_inactive; assumption.
    + exact Hev'.
    + split; [|exact IH2]. constructor; [|exact IH1].
      destruct e; try reflexivity. cbn [enabled] in Hen.
      destruct (timerInv_inactive s Hinv Hst) as [_ Hlive].
      rewrite Hlive in Hen. apply elem_of_empty in Hen. contradiction.
Qed.

Lemma clearSilenceTimer_nextTimerId s :
  nextTimerId (clearSilenceTimer s) = nextTimerId s.
Proof. unfold clearSilenceTimer. destruct (silenceTimerRef s); reflexivity. Qed.

Lemma cleanupRecognizer_nextTimerId s :
  nextTimerId (cleanupRecognizer s) = nextTimerId s.
Proof.
  unfold cleanupRecognizer. run_assignments. apply clearSilenceTimer_nextTimerId.
Qed.

Lemma callback_nextTimerId (e : Event) (s : State) :
  nextTimerId (callback e s) = nextTimerId s.
Proof.
  destruct e as [sdk now|o|tr txt now|tr txt idNow ts upd|isErr d|err|tm now idNow ts| | | |];
    cbn [callback].
  - unfold startTranslator. destruct (recognizerRef s), sdk; reflexivity.
  - destruct o as [|message]; [reflexivity|]. unfold startTranslatorTry, seq.
    rewrite cleanupRecognizer_nextTimerId. reflexivity.
  - unfold recognizing. destruct txt as [t|]; [|reflexivity].
    destruct (tr && truthy (Some t)); [|reflexivity].
    destruct (latencySample _ _); reflexivity.
  - unfold recognized. destruct txt as [t|]; [|reflexivity].
    destruct (_ && _); reflexivity.
  - unfold canceled. destruct isErr; [|reflexivity]. unfold seq, stopTranslator.
    run_assignments. rewrite cleanupRecognizer_nextTimerId. reflexivity.
  - unfold recognitionStartFailed, seq, stopTranslator.
    run_assignments. rewrite cleanupRecognizer_nextTimerId. reflexivity.
  - unfold checkSilence. destruct (silenceDetected now s); reflexivity.
  - reflexivity.
  - unfold stopTranslator. run_assignments. apply cleanupRecognizer_nextTimerId.
  - reflexivity.
  - reflexivity.
Qed.

Lemma clearSilenceTimer_handlesFrom n s :
  handlesFrom n s -> handlesFrom n (clearSilenceTimer s).
Proof.
  intros [Hn Hl]. unfold handlesFrom.
  rewrite clearSilenceTimer_nextTimerId.
  destruct (clearSilenceTimer_cells s) as [_ ->].
  split; [exact Hn|]. intros t Ht. apply elem_of_difference in Ht as [Ht _]. auto.
Qed.

Lemma render_handlesFrom n prev s : handlesFrom n s -> handlesFrom n (render prev s).
Proof.
  intros H. unfold render. case_bool_decide; [exact H|]. unfold seq.
  set (s1 := (if isActive prev then silenceEffectCleanup else skip) s).
  assert (H1 : handlesFrom n s1).
  { subst s1. destruct (isActive prev); [apply clearSilenceTimer_handlesFrom|]; exact H. }
  unfold silenceEffect. destruct (negb (isActive (status s1))).
  - apply clearSilenceTimer_handlesFrom, H1.
  - destruct H1 as [Hn Hl]. destruct (startSilenceTimer_cells s1) as [_ Hlive].
    unfold handlesFrom. rewrite Hlive.
    change (nextTimerId (startSilenceTimer s1)) with (S (nextTimerId s1)).
    split; [lia|]. intros t Ht. apply elem_of_union in Ht as [Ht|Ht].
    + specialize (Hl t Ht). lia.
    + apply elem_of_singleton in Ht as ->. lia.
Qed.

Lemma handle_handlesFrom n (e : Event) (s : State) :
  handlesFrom n s -> handlesFrom n (handle e s).
Proof.
  intros [Hn Hl]. unfold handle. apply render_handlesFrom. unfold handlesFrom.
  rewrite callback_nextTimerId. split; [exact Hn|]. intros t Ht. apply Hl.
  destruct (callback_timer e s) as [[_ Hk]|(_ & Hc & _)].
  - rewrite <- Hk. exact Ht.
  - rewrite Hc in Ht. apply elem_of_difference in Ht as [Ht _]. exact Ht.
Qed.

Lemma ticks_from_later_handles n s evs s' :
  trace s evs s' -> handlesFrom n s -> Forall (tickFrom n) evs.
Proof.
  induction 1 as [s|s e s1 evs s2 Hstep _ IH]; intros Hinv; [constructor|].
  destruct Hstep as [Hen]. constructor; [|apply IH, handle_handlesFrom, Hinv].
  destruct e; try exact I. cbn [enabled] in Hen. cbn [tickFrom].
  destruct Hinv as [_ Hl]. specialize (Hl _ Hen). lia.
Qed.

(** X22. The life of the polling interval. In every state the hook can reach,
    an interval that is still scheduled is the one held by [silenceTimerRef]
    and the status is Listening or Translating, so a poll tick fires only then.
    An event that runs [stopTranslator] (Stop, a cancellation with an error
    reason, a failed recognition start) leaves the status Idle with no interval
    scheduled. The interval it cancelled never fires again: in every execution
    from there a poll tick belongs to an interval scheduled after the stop; and
    there is no poll tick at all, hence no silence commit, for as long as no
    start is called and no interim event arrives. *)
Theorem silence_timer_lifecycle (s : State) :
  reachable s ->
  (forall t, t ∈ liveIntervals s ->
     silenceTimerRef s = Some t /\ (status s = Listening \/ status s = Translating)) /\
  (forall e s', isTick e = true -> step s e s' ->
     status s = Listening \/ status s = Translating) /\
  (forall e, stops e = true ->
     status (handle e s) = Idle /\ silenceTimerRef (handle e s) = None /\
     liveIntervals (handle e s) = ∅ /\
     forall evs s', trace (handle e s) evs s' ->
       Forall (tickFrom (nextTimerId (handle e s))) evs /\
       (Forall (fun e' => activates e' = false) evs ->
        Forall (fun e' => isTick e' = false) evs /\ liveIntervals s' = ∅)).
Proof.
  intros Hreach. pose proof (reachable_timerInv s Hreach) as Hinv.
  assert (Hlive : forall t, t ∈ liveIntervals s ->
     silenceTimerRef s = Some t /\ (status s = Listening \/ status s = Translating)).
  { intros t Ht. destruct Hinv as [Hl Hact]. rewrite Hl in Ht.
    destruct (silenceTimerRef s) as [t'|] eqn:E; cbn [heldBy] in Ht;
      [|apply elem_of_empty in Ht; contradiction].
    apply elem_of_singleton in Ht as ->. split; [reflexivity|].
    assert (Ha : isActive (status s) = true) by eauto.
    destruct (status s); try discriminate Ha; auto. }
  split; [exact Hlive|]. split.
  - intros e s' He [Hen]. destruct e; try discriminate He.
    cbn [enabled] in Hen. apply (Hlive _ Hen).
  - intros e He. destruct (stops_handle e s He Hinv) as (Hst & Href & Hl).
    split; [exact Hst|]. split; [exact Href|]. split; [exact Hl|].
    intros evs s' Htr. split.
    + eapply ticks_from_later_handles; [exact Htr|]. split; [lia|].
      intros t Ht. rewrite Hl in Ht. apply elem_of_empty in Ht. contradiction.
    + intros Hev. eapply no_tick_while_inactive; eauto using handle_timerInv.
      rewrite Hst. reflexivity.
Qed.

Lemma startedState_reachable : reachable startedState.
Proof.
  unfold startedState. cbn [run].
  eapply reachable_step; [eapply reachable_step; [apply reachable_init|]|];
    constructor; exact I.
Qed.

Lemma silence_timer_lifecycle_witness :
  liveIntervals startedState = {[0%nat]} /\
  silenceTimerRef startedState = Some 0%nat /\
  status startedState = Listening /\
  liveIntervals (handle EStop startedState) = ∅.
Proof.
  destruct (silence_timer_lifecycle startedState startedState_reachable)
    as (Hlive & _ & Hstop).
  assert (H0 : liveIntervals startedState = {[0%nat]}) by (vm_compute; reflexivity).
  destruct (Hlive 0%nat) as [Href Hst]; [rewrite H0; apply elem_of_singleton; reflexivity|].
  destruct (Hstop EStop eq_refl) as (_ & _ & Hl & _).
  split; [exact H0|]. split; [exact Href|]. split; [|exact Hl].
  destruct Hst as [Hst|Hst]; [exact Hst|]. vm_compute in Hst. discriminate Hst.
Defined.

Lemma reachable_run evs : forall s,
  reachable s -> Forall (fun e => isTimer e = false) evs -> reachable (run evs s).
Proof.
  induction evs as [|e evs IH]; intros s Hs Hev; [exact Hs|].
  inversion Hev as [|? ? He Hev']; subst. cbn [run]. apply IH; [|exact Hev'].
  eapply reachable_step; [exact Hs|]. constructor.
  destruct e; try exact I; discriminate He.
Qed.

(** C7, at its failing input. The Stop button is pressed while [startTranslator]
    still awaits its token: the stop leaves Idle with no interval scheduled,
    then the suspended call goes on, builds the recognizer and starts
    recognition; its first interim event sets the status to Translating, the
    effect schedules a new interval, and 700ms later a poll tick of that
    interval commits the line, with no start since the stop. *)
Theorem poll_tick_commits_after_stop :
  let stopped := run [EStart true 1000; EStop] initialState in
  let later := [EStartSettled StartOk;
                ERecognizing true (Some (lit "x")) 5000;
                ETick 1 5700 5700 (lit "10:00:05")] in
  reachable stopped /\ status stopped = Idle /\ liveIntervals stopped = ∅ /\
  trace stopped later (run later stopped) /\
  status (run later stopped) = Translating /\
  texts (run later stopped) = [lit "x."].
Proof.
  cbv zeta. split; [|split; [|split; [|split; [|split]]]].
  - apply reachable_run; [apply reachable_init|]. repeat constructor.
  - reflexivity.
  - vm_compute. reflexivity.
  - cbn [run]. repeat (eapply trace_cons; [constructor|]); [exact I|exact I| |apply trace_nil].
    cbn [enabled].
    replace (liveIntervals _) with ({[1%nat]} : gset nat) by (vm_compute; reflexivity).
    apply elem_of_singleton. reflexivity.
  - vm_compute. reflexivity.
  - vm_compute. reflexivity.
Qed.

(** ** Item ids *)








(** ** Starting while a start is pending *)

(** C9, at its failing input. Start is pressed, then Stop while the call still
    awaits its token, then Start again: [recognizerRef] is assigned only at the
    end of the [try] block, so the guard lets the second call through while the
    first is still suspended. Both calls enter the [try] block and both blocks
    run to their end, each one building an audio pipeline and a recognizer that
    it assigns to the same refs. The same holds without the stop: a second call
    made while the first is pending finds the status Listening and the polling
    interval running, passes the guard and is not a no-op. *)
Theorem start_while_start_pending :
  let s1 := handle (EStart true 1000) initialState in
  let s2 := handle EStop s1 in
  let s3 := handle (EStart true 1500) s2 in
  let settled := [EStartSettled StartOk; EStartSettled StartOk] in
  snd (startTranslator true 1000 initialState) = true /\
  recognizerRef s2 = false /\ snd (startTranslator true 1500 s2) = true /\
  trace s3 settled (run settled s3) /\
  recognizerRef (run settled s3) = true /\
  status s1 = Listening /\ liveIntervals s1 = {[0%nat]} /\ recognizerRef s1 = false /\
  snd (startTranslator true 1500 s1) = true /\
  handle (EStart true 1500) s1 <> s1.
Proof.
  cbv zeta. split; [reflexivity|]. split; [reflexivity|]. split; [reflexivity|].
  split; [|split; [reflexivity|]].
  - cbn [run]. repeat (eapply trace_cons; [constructor; exact I|]). apply trace_nil.
  - split; [reflexivity|]. split; [vm_compute; reflexivity|].
    split; [reflexivity|]. split; [reflexivity|].
    intros H. apply (f_equal lastUpdateTimeRef) in H. vm_compute in H. discriminate H.
Qed.

(** ** The first interim event of a session *)

Lemma handle_latencyInv (n : nat) (e : Event) (s : State) :
  latencyInv n s -> latencyInv (countInterim n e) (handle e s).
Proof.
  intros [H0 H1]. unfold latencyInv, countInterim.
  rewrite handle_lastEventTimeRef, handle_latencyMs.
  destruct (stops e) eqn:Es.
  - destruct (stops_latency e s Es) as [-> ->]. split; reflexivity.
  - destruct (isInterim e) eqn:Ei.
    + split; [discriminate|]. intros Hn. assert (n = 0%nat) as -> by lia.
      destruct e as [| |[|] [[|c t]|] now| | | | | | | |]; try discriminate Ei.
      fold (handle (ERecognizing true (Some (c :: t)) now) s).
      cbn [callback]. rewrite recognizing_interim.
      rewrite (H0 eq_refl). cbn [latencySample Z.ltb Z.compare].
      apply H1. lia.
    + destruct (callback_latency_frame e s Es Ei) as [-> ->]. split; assumption.
Qed.

Lemma run_latencyInv evs : forall n s,
  latencyInv n s -> latencyInv (interimsSinceStop n evs) (run evs s).
Proof.
  induction evs as [|e evs IH]; intros n s H; [exact H|].
  cbn [run interimsSinceStop]. apply IH, handle_latencyInv, H.
Qed.

(** X23. Latency after a stop. [stopTranslator] puts the previous-event time
    back to zero and the latency sample back to none. Hence, after any events,
    if no interim event has been handled since the last [stopTranslator] (or
    since the hook was mounted), the next interim event computes no sample and
    leaves the indicator empty; and a sample is on display only if at least two
    interim events have been handled since the last [stopTranslator]. *)
Theorem first_interim_reports_no_sample (evs : list Event) :
  let s := run evs initialState in
  let n := interimsSinceStop 0 evs in
  (forall s0, lastEventTimeRef (stopTranslator s0) = 0 /\
              latencyMs (stopTranslator s0) = None) /\
  (n = 0%nat ->
     forall txt now,
       latencySample (lastEventTimeRef s) now = None /\
       latencyMs (handle (ERecognizing true txt now) s) = None) /\
  (latencyMs s <> None -> (2 <= n)%nat).
Proof.
  cbv zeta.
  assert (Hinv : latencyInv (interimsSinceStop 0 evs) (run evs initialState)).
  { apply run_latencyInv. split; reflexivity. }
  split; [|split].
  - intros s0. destruct (stopTranslator_cells s0) as (_&_&_&->&->&_). split; reflexivity.
  - intros Hn txt now. destruct Hinv as [H0 H1].
    assert (Hs : latencySample (lastEventTimeRef (run evs initialState)) now = None).
    { rewrite (H0 Hn). reflexivity. }
    split; [exact Hs|].
    destruct (isInterim (ERecognizing true txt now)) eqn:Ei.
    + destruct txt as [[|c t]|]; try discriminate Ei.
      destruct (recognizing_interim_cells (run evs initialState) c t now) as [_ ->].
      rewrite Hs. apply H1. lia.
    + rewrite handle_latencyMs.
      destruct (callback_latency_frame (ERecognizing true txt now)
                  (run evs initialState) eq_refl Ei) as [_ ->].
      apply H1. lia.
  - intros Hlat. destruct Hinv as [_ H1].
    destruct (le_lt_dec 2 (interimsSinceStop 0 evs)) as [Hle|Hlt]; [exact Hle|].
    exfalso. apply Hlat, H1. lia.
Qed.


(** ** Stopping *)

(** Evaluating assignments on a state given cell by cell, innermost first. *)
Ltac eval_assignments :=
  cbv beta iota zeta delta
    [seq skip stopTranslator cleanupRecognizer clearSilenceTimer clearTranscript
     setStatus setTranscript setInterimText setLastCommitted setErrorMessage
     setSilenceCommitted setLatencyMs set_recognizerRef set_mediaStreamRef
     set_audioContextRef set_processorRef set_pushStreamRef
     set_lastUpdateTimeRef set_silenceTimerRef set_lastCommittedTextRef
     set_currentInterimRef set_lastEventTimeRef set_liveIntervals
     set_nextTimerId set_pendingTimeouts
     status transcript interimText lastCommitted errorMessage
     silenceCommitted latencyMs recognizerRef mediaStreamRef audioContextRef
     processorRef pushStreamRef lastUpdateTimeRef silenceTimerRef
     lastCommittedTextRef currentInterimRef lastEventTimeRef liveIntervals
     nextTimerId pendingTimeouts released sameRecord].

Lemma clearSilenceTimer_none s : silenceTimerRef s = None -> clearSilenceTimer s = s.
Proof. intros H. unfold clearSilenceTimer. rewrite H. reflexivity. Qed.

Lemma render_inactive_none prev s :
  silenceTimerRef s = None -> isActive (status s) = false -> render prev s = s.
Proof.
  intros Href Hst. unfold render. case_bool_decide; [reflexivity|].
  unfold seq, silenceEffect, silenceEffectCleanup, skip.
  destruct (isActive prev); rewrite ?(clearSilenceTimer_none s Href), Hst; cbn [negb];
    first [reflexivity|apply clearSilenceTimer_none, Href].
Qed.

Lemma handle_stop s : handle EStop s = stopTranslator s.
Proof.
  unfold handle. cbn [callback].
  destruct (stopTranslator_cells s) as (Hst&_&_&_&_&_&Href&_).
  apply render_inactive_none; [exact Href|]. rewrite Hst. reflexivity.
Qed.

Lemma stopTranslator_twice s : stopTranslator (stopTranslator s) = stopTranslator s.
Proof.
  destruct s as [st tr it lc em sc lat rr ms ac pr ps lu [t|] lct ci le li nt pt];
    eval_assignments; reflexivity.
Qed.

Lemma stopTranslator_released s : released (stopTranslator s).
Proof.
  destruct s as [st tr it lc em sc lat rr ms ac pr ps lu [t|] lct ci le li nt pt];
    eval_assignments; repeat split.
Qed.

(** X1. Stop is safe to repeat and complete: handling Stop equals
    [stopTranslator] (the effect that follows finds nothing left to do), a
    second Stop changes nothing, afterwards the recognizer, the four audio
    objects and the timer are all released, the status is Idle and the live
    line empty, while the transcript, the text committed last, the error
    message and the silence indicator are as before. *)
Theorem stop_is_idempotent_and_complete (s : State) :
  handle EStop s = stopTranslator s /\
  handle EStop (handle EStop s) = handle EStop s /\
  released (handle EStop s) /\
  status (handle EStop s) = Idle /\
  interimText (handle EStop s) = [] /\ currentInterimRef (handle EStop s) = [] /\
  sameRecord s (handle EStop s) /\
  errorMessage (handle EStop s) = errorMessage s /\
  silenceCommitted (handle EStop s) = silenceCommitted s.
Proof.
  rewrite !handle_stop, stopTranslator_twice.
  split; [reflexivity|]. split; [reflexivity|]. split; [apply stopTranslator_released|].
  destruct s as [st tr it lc em sc lat rr ms ac pr ps lu [t|] lct ci le li nt pt];
    eval_assignments; repeat split.
Qed.

(** ** The status machine *)

Lemma callback_status (e : Event) (s : State) :
  status (callback e s) =
  match e with
  | EStart sdkLoaded _ =>
      if recognizerRef s then status s else if sdkLoaded then Listening else Error
  | EStartSettled (StartThrows _) => Error
  | _ => if stops e then Idle else if isInterim e then Translating else status s
  end.
Proof.
  destruct e as [sdk now|o|tr txt now|tr txt idNow ts upd|isErr d|err|tm now idNow ts| | | |];
    cbn [callback stops isInterim].
  - unfold startTranslator. destruct (recognizerRef s), sdk; reflexivity.
  - destruct o as [|message]; [reflexivity|]. unfold startTranslatorTry.
    change ((?a >>> ?b >>> cleanupRecognizer) s)
      with (cleanupRecognizer ((a >>> b) s)).
    destruct (cleanupRecognizer_cells ((setErrorMessage
      (Some (if truthy message then default [] message
             else lit "Failed to start translation")) >>> setStatus Error) s))
      as (_ & _ & ->). reflexivity.
  - unfold recognizing. destruct tr, txt as [[|c t]|]; reflexivity.
  - unfold recognized. destruct txt as [t|]; [|reflexivity].
    destruct (_ && _); reflexivity.
  - unfold canceled. destruct isErr; [|reflexivity].
    apply (stopTranslator_cells (setErrorMessage _ s)).
  - apply (stopTranslator_cells (setErrorMessage _ s)).
  - unfold checkSilence. destruct (silenceDetected now s); reflexivity.
  - reflexivity.
  - apply stopTranslator_cells.
  - reflexivity.
  - reflexivity.
Qed.

(** X2. The transitions of the status. Whatever the event, the status stays as
    it is or moves in one of four ways: to Listening by a start that passes both
    guards, to Translating by an interim event, to Idle by an event that stops
    the session, to Error by a start that fails (SDK missing, or a throw inside
    the [try]). Interim events and stops always reach their target; nothing else
    reaches Translating, Idle or Listening. *)
Theorem status_transitions (e : Event) (s : State) :
  (status (handle e s) = status s \/
   (status (handle e s) = Listening /\
      (exists now, e = EStart true now) /\ recognizerRef s = false) \/
   (status (handle e s) = Translating /\ isInterim e = true) \/
   (status (handle e s) = Idle /\ stops e = true) \/
   (status (handle e s) = Error /\ startFails e s)) /\
  (isInterim e = true -> status (handle e s) = Translating) /\
  (stops e = true -> status (handle e s) = Idle).
Proof.
  rewrite handle_status, callback_status. unfold startFails. split; [|split].
  - destruct e as [sdk now|[|m]|tr txt now|tr txt idNow ts upd|[|] d|err|tm now idNow ts| | | |];
      cbn [stops isInterim]; auto.
    + destruct (recognizerRef s) eqn:Hr; [auto|].
      destruct sdk; [right; left|right; right; right; right]; eauto 8.
    + right; right; right; right. eauto.
    + destruct tr, txt as [[|c t]|]; cbn [isInterim]; auto.
    + right; right; right; left. auto.
    + right; right; right; left. auto.
    + right; right; right; left. auto.
  - destruct e as [| |[|] [[|c t]|] now| | | | | | | |]; cbn [isInterim stops];
      try discriminate. reflexivity.
  - destruct e as [| | | |[|] d|err| | | | |]; cbn [stops]; try discriminate; reflexivity.
Qed.

(** ** What is appended *)

(** How a callback changes the transcript, with the text it appends. *)
Lemma transcript_change (e : Event) (s : State) :
  transcript (callback e s) = transcript s \/
  (exists tr c t idNow ts upd,
     e = ERecognized tr (Some (c :: t)) idNow ts upd /\
     trim (c :: t) <> lastCommittedTextRef s /\
     callback e s = recognized true (Some (c :: t)) idNow ts upd s /\
     transcript (callback e s) = transcript s ++ [mkItem idNow ts (c :: t)]) \/
  (exists tm now idNow ts,
     e = ETick tm now idNow ts /\ silenceCondition now s /\
     transcript (callback e s) =
       transcript s ++ [mkItem idNow ts (punctuate (trim (currentInterimRef s)))]) \/
  (e = EClear /\ transcript (callback e s) = []).
Proof.
  pose proof (callback_transcript e s) as H.
  destruct e as [sdk now|o|tr txt now|tr txt idNow ts upd|isErr d|err|tm now idNow ts| | | |];
    auto.
  - clear H. cbn [callback]. destruct tr, txt as [[|c t]|]; auto.
    rewrite recognized_final. case_bool_decide as Hne; [|auto].
    right; left. exists true, c, t, idNow, ts, upd. rewrite recognized_final.
    rewrite bool_decide_eq_true_2 by exact Hne. auto.
  - clear H. cbn [callback]. unfold checkSilence.
    destruct (silenceDetected now s) eqn:E; [|auto].
    apply silenceDetected_iff in E. right; right; left. exists tm, now, idNow, ts. auto.
Qed.

Lemma punctuate_cases t :
  punctuate t = t \/ (endsWithPunctuation t = false /\ punctuate t = t ++ lit ".").
Proof. unfold punctuate. destruct (endsWithPunctuation t); cbn [negb]; auto. Qed.

Lemma punctuate_nonempty t : t <> [] -> punctuate t <> [].
Proof.
  intros Ht. destruct (punctuate_cases t) as [->|[_ ->]]; [exact Ht|].
  destruct t; discriminate.
Qed.

Lemma handle_texts_nonempty (e : Event) (s : State) :
  Forall (fun it => text it <> []) (transcript s) ->
  Forall (fun it => text it <> []) (transcript (handle e s)).
Proof.
  intros H. rewrite handle_transcript.
  destruct (transcript_change e s)
    as [->|[(tr&c&t&i&ts&u&_&_&_&->)|[(tm&now&i&ts&_&Hc&->)|[_ ->]]]]; auto.
  - apply Forall_app. split; [exact H|]. constructor; [discriminate|constructor].
  - apply Forall_app. split; [exact H|]. constructor; [|constructor].
    cbn [text]. apply punctuate_nonempty, Hc.
Qed.

(** X3. No empty line is ever appended: whatever events the mounted hook
    handles, every item of the transcript has a non-empty text (a final event
    with an empty text is ignored, a silence commit needs a live line that is
    non-empty after trimming). *)
Theorem transcript_texts_nonempty (evs : list Event) :
  Forall (fun it => text it <> []) (transcript (run evs initialState)).
Proof.
  assert (H : forall s, Forall (fun it => text it <> []) (transcript s) ->
                        Forall (fun it => text it <> []) (transcript (run evs s))).
  { induction evs as [|e evs IH]; intros s Hs; [exact Hs|].
    cbn [run]. apply IH, handle_texts_nonempty, Hs. }
  apply H. constructor.
Qed.

(** ** Trimming *)

Lemma trimStart_head s :
  match trimStart s with
  | [] => True
  | c :: _ => isWhiteSpace c = false
  end.
Proof.
  induction s as [|c s IH]; [exact I|]. cbn [trimStart].
  destruct (isWhiteSpace c) eqn:E; [exact IH|exact E].
Qed.

Lemma trimStart_suffix s : exists w, s = w ++ trimStart s.
Proof.
  induction s as [|c s [w IH]]; [exists []; reflexivity|]. cbn [trimStart].
  destruct (isWhiteSpace c); [|exists []; reflexivity].
  exists (c :: w). cbn [app]. rewrite <- IH. reflexivity.
Qed.

Lemma trimStart_fixed c s : isWhiteSpace c = false -> trimStart (c :: s) = c :: s.
Proof. intros H. cbn [trimStart]. rewrite H. reflexivity. Qed.

(** [trim] returns a string without white space at either end. *)
Lemma trim_shape s : trimmedShape (trim s).
Proof.
  unfold trim, trimEnd.
  pose proof (trimStart_head s) as Hu. set (u := trimStart s) in *.
  pose proof (trimStart_head (rev u)) as Hv.
  destruct (trimStart_suffix (rev u)) as [w Hw].
  set (v := trimStart (rev u)) in *.
  destruct v as [|d v']; [exact I|].
  assert (Hu' : u = rev (d :: v') ++ rev w).
  { rewrite <- rev_app_distr, <- Hw, rev_involutive. reflexivity. }
  cbn [rev] in *. destruct (rev v' ++ [d]) as [|h r] eqn:E.
  - destruct (rev v'); discriminate E.
  - rewrite Hu' in Hu. cbn [app] in Hu. split; [exact Hu|].
    exists d. split; [|exact Hv]. rewrite <- E. apply last_snoc.
Qed.

(** Such a string is left as it is. *)
Lemma trim_fixed t : trimmedShape t -> trim t = t.
Proof.
  destruct t as [|c r]; [reflexivity|]. intros [Hc (d & Hlast & Hd)].
  unfold trim, trimEnd. rewrite (trimStart_fixed c r Hc).
  apply last_Some in Hlast as [l' Hl']. rewrite Hl', rev_unit.
  rewrite (trimStart_fixed d (rev l') Hd). rewrite <- (rev_unit l' d), rev_involutive.
  reflexivity.
Qed.

Lemma trim_idempotent s : trim (trim s) = trim s.
Proof. apply trim_fixed, trim_shape. Qed.

Lemma isSentenceEnd_not_white c : isSentenceEnd c = true -> isWhiteSpace c = false.
Proof.
  intros H. apply isSentenceEnd_iff in H. cbn [In terminalMarks] in H.
  repeat (destruct H as [<-|H]; [reflexivity|]). contradiction.
Qed.

Lemma punctuate_ends t : endsWithPunctuation (punctuate t) = true.
Proof.
  unfold punctuate. destruct (endsWithPunctuation t) eqn:E; cbn [negb]; [exact E|].
  unfold endsWithPunctuation. change (lit ".") with [46%N]. rewrite last_snoc.
  reflexivity.
Qed.

Lemma punctuate_idempotent t : punctuate (punctuate t) = punctuate t.
Proof.
  unfold punctuate at 1. rewrite punctuate_ends. reflexivity.
Qed.

Lemma punctuate_shape t : t <> [] -> trimmedShape t -> trimmedShape (punctuate t).
Proof.
  intros Hne Hs. destruct (punctuate_cases t) as [->|[_ ->]]; [exact Hs|].
  destruct t as [|c r]; [congruence|]. destruct Hs as [Hc _].
  cbn [app trimmedShape]. split; [exact Hc|].
  exists 46%N. split; [|reflexivity].
  change (c :: r ++ lit ".") with ((c :: r) ++ [46%N]). apply last_snoc.
Qed.

(** X4. The text a silence commit appends is the trimmed live line with its
    punctuation: it is non-empty, ends in a sentence-terminal mark, has no white
    space at either end (trimming it again changes nothing) and would not be
    punctuated twice; it is also what the hook records as committed last. *)
Theorem silence_committed_text_shape
    (s : State) (tm : nat) (now idNow : Z) (ts : jsstring) :
  silenceCondition now s ->
  let s' := handle (ETick tm now idNow ts) s in
  let c := punctuate (trim (currentInterimRef s)) in
  last (transcript s') = Some (mkItem idNow ts c) /\
  lastCommittedTextRef s' = c /\ lastCommitted s' = c /\
  c <> [] /\ endsWithPunctuation c = true /\ trim c = c /\ punctuate c = c.
Proof.
  intros Hc. cbv zeta. pose proof Hc as (_ & Hne & _).
  rewrite (handle_same_status (ETick tm now idNow ts) s).
  - cbn [callback]. unfold checkSilence.
    rewrite (proj2 (silenceDetected_iff now s) Hc).
    split; [apply last_snoc|]. split; [reflexivity|]. split; [reflexivity|].
    split; [apply punctuate_nonempty, Hne|]. split; [apply punctuate_ends|].
    split; [|apply punctuate_idempotent].
    apply trim_fixed, punctuate_shape; [exact Hne|apply trim_shape].
  - rewrite callback_status. reflexivity.
Qed.

Lemma silence_committed_text_shape_witness :
  let s := handle (ERecognizing true (Some (lit "  hello world ")) 2000) startedState in
  last (transcript (handle (ETick 1 2700 2701 (lit "10:00:02")) s))
  = Some (mkItem 2701 (lit "10:00:02") (lit "hello world.")).
Proof.
  intros s.
  destruct (silence_committed_text_shape s 1 2700 2701 (lit "10:00:02")) as [H _].
  - unfold silenceCondition. vm_compute. repeat split; discriminate.
  - rewrite H. vm_compute. reflexivity.
Defined.

(** ** The silence indicator *)

Lemma cleanupRecognizer_indicator s :
  silenceCommitted (cleanupRecognizer s) = silenceCommitted s /\
  pendingTimeouts (cleanupRecognizer s) = pendingTimeouts s.
Proof.
  unfold cleanupRecognizer, clearSilenceTimer.
  destruct (silenceTimerRef s) eqn:E; run_assignments; rewrite ?E; split; reflexivity.
Qed.

Lemma stopTranslator_indicator s :
  silenceCommitted (stopTranslator s) = silenceCommitted s /\
  pendingTimeouts (stopTranslator s) = pendingTimeouts s.
Proof.
  destruct (cleanupRecognizer_indicator s) as [H1 H2].
  unfold stopTranslator. run_assignments. auto.
Qed.

Lemma handle_indicatorInv (e : Event) (s : State) :
  indicatorInv s -> indicatorInv (handle e s).
Proof.
  unfold indicatorInv, handle. intros H.
  destruct (render_sameEngine (status s) (callback e s))
    as (_&_&_&_&_&->&_&_&_&_&_&_&_&_&_&_&->).
  destruct e as [sdk now|o|tr txt now|tr txt idNow ts upd|isErr d|err|tm now idNow ts| | | |];
    cbn [callback].
  - unfold startTranslator. destruct (recognizerRef s), sdk; exact H.
  - destruct o as [|message]; unfold startTranslatorTry; [exact H|].
    change ((?a >>> ?b >>> cleanupRecognizer) s)
      with (cleanupRecognizer ((a >>> b) s)).
    destruct (cleanupRecognizer_indicator ((setErrorMessage
      (Some (if truthy message then default [] message
             else lit "Failed to start translation")) >>> setStatus Error) s))
      as [-> ->]. exact H.
  - unfold recognizing. destruct txt as [t|]; [|exact H].
    destruct (tr && truthy (Some t)); [|exact H].
    destruct (latencySample _ _); exact H.
  - unfold recognized. destruct txt as [t|]; [|exact H].
    destruct (_ && _); exact H.
  - unfold canceled. destruct isErr; [|exact H]. unfold seq.
    destruct (stopTranslator_indicator (setErrorMessage
      (Some (lit "Speech Error: " ++ d)) s)) as [-> ->]. exact H.
  - unfold recognitionStartFailed, seq.
    destruct (stopTranslator_indicator (setErrorMessage
      (Some (lit "Failed to start: " ++ err)) s)) as [-> ->]. exact H.
  - unfold checkSilence. destruct (silenceDetected now s); [|exact H].
    run_assignments. intros _. lia.
  - unfold silenceIndicatorTimeout. run_assignments. discriminate.
  - destruct (stopTranslator_indicator s) as [-> ->]. exact H.
  - exact H.
  - exact H.
Qed.

(** X5. The silence indicator never stays on by itself: in every state the
    hook can reach, when the indicator is shown at least one of the timeouts
    that turn it off is still pending. Stopping or clearing does not cancel
    these timeouts. *)
Theorem indicator_has_pending_timeout (s : State) :
  reachable s ->
  (silenceCommitted s = true -> (0 < pendingTimeouts s)%nat) /\
  (pendingTimeouts s = 0%nat -> silenceCommitted s = false) /\
  pendingTimeouts (handle EStop s) = pendingTimeouts s /\
  pendingTimeouts (handle EClear s) = pendingTimeouts s.
Proof.
  intros Hr.
  assert (H : indicatorInv s).
  { induction Hr as [|s e s' _ IH [Hen]]; [intros [=]|]. apply handle_indicatorInv, IH. }
  split; [exact H|]. split.
  - intros H0. destruct (silenceCommitted s) eqn:E; [|reflexivity].
    specialize (H E). lia.
  - split.
    + rewrite handle_stop. apply stopTranslator_indicator.
    + rewrite handle_same_status by reflexivity. reflexivity.
Qed.

(** ** The live line after a commit *)

Lemma tick_on_blank_line (tm : nat) (now idNow : Z) (ts : jsstring) (s : State) :
  blankLine s -> handle (ETick tm now idNow ts) s = s.
Proof.
  intros Hb. unfold handle. cbn [callback]. rewrite checkSilence_quiet.
  - apply render_same_status.
  - intros (_ & H & _). apply H, Hb.
Qed.

Lemma ticks_on_blank_line ticks : forall s,
  blankLine s -> Forall (fun e => isTick e = true) ticks -> run ticks s = s.
Proof.
  induction ticks as [|e ticks IH]; intros s Hb Hev; [reflexivity|].
  inversion Hev as [|? ? He Hev']; subst. destruct e; try discriminate He.
  cbn [run]. rewrite tick_on_blank_line by exact Hb. apply IH; assumption.
Qed.

Lemma handle_currentInterimRef e s :
  currentInterimRef (handle e s) = currentInterimRef (callback e s).
Proof. unfold handle. apply render_sameEngine. Qed.

Lemma handle_interimText e s :
  interimText (handle e s) = interimText (callback e s).
Proof. unfold handle. apply render_sameEngine. Qed.

(** X6. Whenever an event changes the transcript (a final event is appended,
    a poll tick commits, the transcript is cleared) the live line is empty
    afterwards, state cell and ref, and the poll ticks that follow change
    nothing at all: the silence timer cannot commit again what a final event
    or itself has just committed. The same holds after a stop. *)
Theorem ticks_idle_after_commit (e : Event) (s : State) (ticks : list Event) :
  transcript (handle e s) <> transcript s \/ stops e = true ->
  Forall (fun e' => isTick e' = true) ticks ->
  interimText (handle e s) = [] /\ currentInterimRef (handle e s) = [] /\
  run ticks (handle e s) = handle e s.
Proof.
  intros He Hticks.
  assert (H : interimText (handle e s) = [] /\ currentInterimRef (handle e s) = []).
  { rewrite handle_interimText, handle_currentInterimRef.
    destruct He as [He|He].
    - rewrite handle_transcript in He.
      destruct (transcript_change e s)
        as [Heq|[(tr&c&t&i&ts&u&_&Hne&->&_)|[(tm&now&i&ts&->&Hc&_)|[-> _]]]].
      + contradiction.
      + rewrite recognized_final, bool_decide_eq_true_2 by exact Hne.
        split; reflexivity.
      + cbn [callback]. unfold checkSilence.
        rewrite (proj2 (silenceDetected_iff now s) Hc). split; reflexivity.
      + split; reflexivity.
    - destruct e as [| | | |[|] d|err| | | | |]; try discriminate He; cbn [callback].
      + apply (stopTranslator_live_line (setErrorMessage _ s)).
      + apply (stopTranslator_live_line (setErrorMessage _ s)).
      + apply stopTranslator_live_line. }
  destruct H as [H1 H2]. split; [exact H1|]. split; [exact H2|].
  apply ticks_on_blank_line; [|exact Hticks]. unfold blankLine. rewrite H2. reflexivity.
Qed.

Lemma ticks_idle_after_commit_witness :
  let final := ERecognized true (Some (lit "Hola mundo.")) 2300 (lit "10:00:02") 2300 in
  let s := handle (ERecognizing true (Some (lit "Hola mundo")) 2000) startedState in
  run [ETick 1 2700 2700 []; ETick 1 2800 2800 []; ETick 1 9000 9000 []] (handle final s)
  = handle final s.
Proof.
  intros final s. apply ticks_idle_after_commit.
  - left. vm_compute. discriminate.
  - repeat constructor.
Defined.

Lemma indicator_has_pending_timeout_witness :
  let s := run [ERecognizing true (Some (lit "ok")) 2000;
                ETick 1 2700 2700 []] startedState in
  silenceCommitted s = true /\ (0 < pendingTimeouts s)%nat.
Proof.
  intros s.
  assert (Hr : reachable s).
  { subst s. cbn [run].
    apply (reachable_step
             (handle (ERecognizing true (Some (lit "ok")) 2000) startedState)
             (ETick 1 2700 2700 [])).
    - apply (reachable_step startedState (ERecognizing true (Some (lit "ok")) 2000));
        [apply startedState_reachable|]. constructor. exact I.
    - constructor. cbn [enabled]. apply (bool_decide_unpack _). vm_compute. exact I. }
  assert (Hc : silenceCommitted s = true) by (vm_compute; reflexivity).
  split; [exact Hc|]. apply (indicator_has_pending_timeout s Hr), Hc.
Defined.

(** ** A final event after a silence commit *)

(** X7. After a silence commit, a final event is dropped exactly when its
    trimmed text equals the committed, punctuated text. So the recognizer's
    final for a line that was committed by silence is suppressed when it carries
    the same punctuation, whereas a final that repeats the live line as it was,
    without a terminal mark, is appended as a second entry. *)
Theorem final_after_silence_commit
    (s : State) (tm : nat) (now idNow : Z) (ts : jsstring)
    (t : jsstring) (id2 : Z) (ts2 : jsstring) (upd2 : Z) :
  silenceCondition now s -> t <> [] ->
  let line := trim (currentInterimRef s) in
  let s1 := handle (ETick tm now idNow ts) s in
  let s2 := handle (ERecognized true (Some t) id2 ts2 upd2) s1 in
  (trim t = punctuate line -> s2 = s1) /\
  (trim t <> punctuate line ->
     transcript s2 = transcript s ++ [mkItem idNow ts (punctuate line); mkItem id2 ts2 t]) /\
  (t = line -> endsWithPunctuation line = false ->
     transcript s2 = transcript s ++ [mkItem idNow ts (line ++ lit "."); mkItem id2 ts2 line]).
Proof.
  intros Hc Ht. cbv zeta.
  assert (Hcells : transcript (checkSilence now idNow ts s)
                   = transcript s ++ [mkItem idNow ts (punctuate (trim (currentInterimRef s)))] /\
                   lastCommittedTextRef (checkSilence now idNow ts s)
                   = punctuate (trim (currentInterimRef s))).
  { unfold checkSilence. rewrite (proj2 (silenceDetected_iff now s) Hc).
    split; reflexivity. }
  destruct Hcells as [Htr Href].
  assert (Hs1 : handle (ETick tm now idNow ts) s = checkSilence now idNow ts s).
  { apply handle_same_status. rewrite callback_status. reflexivity. }
  rewrite Hs1. set (s1 := checkSilence now idNow ts s) in *.
  set (line := trim (currentInterimRef s)) in *.
  destruct t as [|c t]; [congruence|].
  assert (Hdrop : trim (c :: t) = punctuate line ->
                  handle (ERecognized true (Some (c :: t)) id2 ts2 upd2) s1 = s1).
  { intros Heq. unfold handle. cbn [callback]. rewrite recognized_final.
    rewrite bool_decide_eq_false_2 by (rewrite Href; intros H; apply H, Heq).
    apply render_same_status. }
  assert (Happ : trim (c :: t) <> punctuate line ->
                 transcript (handle (ERecognized true (Some (c :: t)) id2 ts2 upd2) s1)
                 = transcript s ++ [mkItem idNow ts (punctuate line); mkItem id2 ts2 (c :: t)]).
  { intros Hne. rewrite handle_transcript. cbn [callback]. rewrite recognized_final.
    rewrite bool_decide_eq_true_2 by (rewrite Href; exact Hne).
    run_assignments. rewrite Htr, <- app_assoc. reflexivity. }
  split; [exact Hdrop|]. split; [exact Happ|].
  intros Heq Hend.
  assert (Hp : punctuate line = line ++ lit ".").
  { unfold punctuate. rewrite Hend. reflexivity. }
  assert (Hfix : trim line = line) by apply trim_idempotent.
  rewrite <- Hp. replace (mkItem id2 ts2 line) with (mkItem id2 ts2 (c :: t))
    by (rewrite Heq; reflexivity).
  apply Happ. rewrite Heq, Hfix, Hp. intros H.
  apply (f_equal (@length _)) in H. rewrite length_app in H.
  change (length (lit ".")) with 1%nat in H. lia.
Qed.

Lemma final_after_silence_commit_witness :
  let s := handle (ERecognizing true (Some (lit "Hola mundo")) 2000) startedState in
  let s1 := handle (ETick 1 2700 2700 []) s in
  handle (ERecognized true (Some (lit "Hola mundo.")) 2900 [] 2900) s1 = s1 /\
  texts (handle (ERecognized true (Some (lit "Hola mundo")) 2900 [] 2900) s1)
  = [lit "Hola mundo."; lit "Hola mundo"].
Proof.
  intros s s1. subst s1.
  assert (Hc : silenceCondition 2700 s).
  { unfold silenceCondition. vm_compute. repeat split; discriminate. }
  split.
  - apply (final_after_silence_commit s 1 2700 2700 [] (lit "Hola mundo.") 2900 [] 2900 Hc);
      [discriminate|]. vm_compute. reflexivity.
  - unfold texts.
    rewrite (proj1 (proj2 (final_after_silence_commit s 1 2700 2700 []
               (lit "Hola mundo") 2900 [] 2900 Hc ltac:(discriminate))));
      [vm_compute; reflexivity|]. vm_compute. discriminate.
Defined.

(** ** A start that fails *)

Lemma cleanupRecognizer_released s : released (cleanupRecognizer s).
Proof.
  destruct s as [st tr it lc em sc lat rr ms ac pr ps lu [t|] lct ci le li nt pt];
    eval_assignments; repeat split.
Qed.

Lemma cleanupRecognizer_sameRecord s :
  sameRecord s (cleanupRecognizer s) /\ status (cleanupRecognizer s) = status s /\
  errorMessage (cleanupRecognizer s) = errorMessage s.
Proof.
  destruct s as [st tr it lc em sc lat rr ms ac pr ps lu [t|] lct ci le li nt pt];
    eval_assignments; repeat split.
Qed.

(** X9. A start that fails leaves nothing behind. When the SDK is missing (and
    no recognizer is owned) or the [try] block throws, the status becomes Error
    and a non-empty message is stored: the SDK notice, the thrown error's
    message, or "Failed to start translation" when the error carries none. The
    transcript and the text committed last are untouched, no interval is
    scheduled any more, and after a throw every resource ref is released. *)
Theorem failed_start_leaves_nothing (s : State) (e : Event) :
  reachable s -> startFails e s ->
  status (handle e s) = Error /\
  (exists msg, errorMessage (handle e s) = Some msg /\ msg <> []) /\
  sameRecord s (handle e s) /\
  silenceTimerRef (handle e s) = None /\ liveIntervals (handle e s) = ∅ /\
  (forall message, e = EStartSettled (StartThrows message) ->
     released (handle e s) /\
     errorMessage (handle e s) =
       Some (match message with
             | Some (c :: m) => c :: m
             | _ => lit "Failed to start translation"
             end)).
Proof.
  intros Hr Hfail. pose proof (reachable_timerInv s Hr) as Hinv.
  assert (Hst : status (handle e s) = Error).
  { rewrite handle_status, callback_status.
    destruct Hfail as [(now & -> & ->)|(m & ->)]; reflexivity. }
  destruct (timerInv_inactive (handle e s)) as [Href Hlive];
    [apply handle_timerInv, Hinv|rewrite Hst; reflexivity|].
  destruct (render_sameEngine (status s) (callback e s))
    as (_&H2&_&H4&H5&_&_&H8&H9&H10&H11&H12&_&H14&_).
  fold (handle e s) in *.
  split; [exact Hst|].
  destruct Hfail as [(now & -> & Hrec)|(m & ->)].
  - assert (Hcb : callback (EStart false now) s =
                  (setErrorMessage (Some (lit
                     "Speech SDK not loaded. Check your internet connection.")) >>>
                   setStatus Error) s).
    { cbn [callback]. unfold startTranslator. rewrite Hrec. reflexivity. }
    rewrite Hcb in *. split; [eexists; split; [exact H5|discriminate]|].
    split; [repeat split; assumption|]. split; [exact Href|]. split; [exact Hlive|].
    intros message [=].
  - cbn [callback] in *. unfold startTranslatorTry in *.
    change ((?a >>> ?b >>> cleanupRecognizer) s)
      with (cleanupRecognizer ((a >>> b) s)) in *.
    set (s0 := (setErrorMessage _ >>> setStatus Error) s) in *.
    destruct (cleanupRecognizer_sameRecord s0) as ((T1&T2&T3)&_&Hem).
    assert (E1 : transcript s0 = transcript s) by reflexivity.
    assert (E2 : lastCommitted s0 = lastCommitted s) by reflexivity.
    assert (E3 : lastCommittedTextRef s0 = lastCommittedTextRef s) by reflexivity.
    destruct (cleanupRecognizer_released s0) as (R1&R2&R3&R4&R5&_).
    assert (Hmsg : errorMessage (handle (EStartSettled (StartThrows m)) s) =
                   Some (match m with
                         | Some (c :: m') => c :: m'
                         | _ => lit "Failed to start translation"
                         end)).
    { rewrite H5, Hem. subst s0. destruct m as [[|c m']|]; reflexivity. }
    split.
    { rewrite Hmsg. eexists; split; [reflexivity|]. destruct m as [[|c m']|]; discriminate. }
    split; [repeat split; congruence|]. split; [exact Href|]. split; [exact Hlive|].
    intros message [= <-]. split; [|exact Hmsg].
    repeat split; congruence.
Qed.

Lemma failed_start_leaves_nothing_witness :
  let e := EStartSettled (StartThrows (Some (lit "Token fetch failed: Not Found"))) in
  status (handle e fooState) = Error /\ liveIntervals (handle e fooState) = ∅ /\
  released (handle e fooState).
Proof.
  intros e.
  assert (Hr : reachable fooState).
  { apply (reachable_step startedState (ERecognizing true (Some (lit "foo")) 1500));
      [apply startedState_reachable|]. constructor. exact I. }
  destruct (failed_start_leaves_nothing fooState e Hr) as (Hst & _ & _ & _ & Hl & Hrel).
  - right. eexists. reflexivity.
  - split; [exact Hst|]. split; [exact Hl|]. apply (Hrel _ eq_refl).
Defined.

(** ** The audio callback *)

Lemma wrap16_in_range z : -32768 <= z <= 32767 -> Audio.wrap16 z = z.
Proof.
  intros H. unfold Audio.wrap16. cbv zeta.
  destruct (32768 <=? z mod 65536) eqn:E;
    [apply Z.leb_le in E|apply Z.leb_gt in E]; Z.div_mod_to_equations; lia.
Qed.

Lemma truncate_scaled_neg q :
  (-1 <= q)%Q -> (q < 0)%Q ->
  -32768 <= Audio.truncate (q * 32768) <= 0.
Proof.
  destruct q as [n d]. unfold Qle, Qlt, Audio.truncate. cbn [Qnum Qden Qmult].
  intros H1 H2. ring_simplify in H1. ring_simplify in H2.
  rewrite Pos.mul_1_r.
  pose proof (Pos2Z.is_pos d). Z.quot_rem_to_equations. nia.
Qed.

Lemma truncate_scaled_pos q :
  (0 <= q)%Q -> (q <= 1)%Q ->
  0 <= Audio.truncate (q * 32767) <= 32767.
Proof.
  destruct q as [n d]. unfold Qle, Audio.truncate. cbn [Qnum Qden Qmult].
  intros H1 H2. ring_simplify in H1. ring_simplify in H2.
  rewrite Pos.mul_1_r.
  pose proof (Pos2Z.is_pos d). Z.quot_rem_to_equations. nia.
Qed.

(** Order facts on rationals that contradict each other. *)
Ltac q_absurd :=
  exfalso;
  repeat match goal with q : Q |- _ => destruct q end;
  unfold Qle, Qlt in *; cbn [Qnum Qden] in *; lia.

Lemma truncate_at_neg1 q :
  (q <= -1)%Q -> (-1 <= q)%Q -> Audio.truncate (q * 32768) = -32768.
Proof.
  destruct q as [n d]. unfold Qle, Audio.truncate. cbn [Qnum Qden Qmult].
  intros H1 H2. ring_simplify in H1. ring_simplify in H2.
  rewrite Pos.mul_1_r.
  assert (n = - Z.pos d) as -> by lia.
  replace (- Z.pos d * 32768) with (-32768 * Z.pos d) by ring.
  apply Z.quot_mul. lia.
Qed.

Lemma truncate_at_1 q :
  (1 <= q)%Q -> (q <= 1)%Q -> Audio.truncate (q * 32767) = 32767.
Proof.
  destruct q as [n d]. unfold Qle, Audio.truncate. cbn [Qnum Qden Qmult].
  intros H1 H2. ring_simplify in H1. ring_simplify in H2.
  rewrite Pos.mul_1_r.
  assert (n = Z.pos d) as -> by lia.
  replace (Z.pos d * 32767) with (32767 * Z.pos d) by ring.
  apply Z.quot_mul. lia.
Qed.

Lemma pcmSample_finite q :
  Audio.pcmSample (Audio.Finite q) =
  if Qlt_le_dec q 1 then
    if Qlt_le_dec (-1) q then
      if Qlt_le_dec q 0 then Audio.truncate (q * 32768) else Audio.truncate (q * 32767)
    else -32768
  else 32767.
Proof.
  unfold Audio.pcmSample, Audio.min1. destruct (Qlt_le_dec q 1) as [H1|H1].
  - unfold Audio.maxNeg1. destruct (Qlt_le_dec (-1) q) as [H2|H2].
    + unfold Audio.scale. destruct (Qlt_le_dec q 0) as [H3|H3]; cbn [Audio.toInt16].
      * apply wrap16_in_range.
        pose proof (truncate_scaled_neg q (Qlt_le_weak _ _ H2) H3). lia.
      * apply wrap16_in_range.
        pose proof (truncate_scaled_pos q H3 (Qlt_le_weak _ _ H1)). lia.
    + reflexivity.
  - reflexivity.
Qed.

(** X10. The conversion of a microphone sample to 16-bit PCM never wraps
    around. A finite sample is clamped to [-1, 1] and scaled by 32768 below
    zero and by 32767 from zero on, so the stored value is the truncated
    product itself: it keeps the sign of the sample, -1 and everything below
    give -32768, 1 and everything above give 32767, and Audio.NaN gives 0. The block
    written has one value per input sample, and nothing is written once the
    push stream has been released. *)
Theorem pcm_conversion_never_wraps (x : Audio.Float) (inputData : list Audio.Float) (s : State) :
  -32768 <= Audio.pcmSample x <= 32767 /\
  (forall q, x = Audio.Finite q ->
     ((q <= -1)%Q -> Audio.pcmSample x = -32768) /\
     ((1 <= q)%Q -> Audio.pcmSample x = 32767) /\
     ((-1 <= q)%Q -> (q < 0)%Q ->
        Audio.pcmSample x = Audio.truncate (q * 32768) /\ Audio.pcmSample x <= 0) /\
     ((0 <= q)%Q -> (q <= 1)%Q ->
        Audio.pcmSample x = Audio.truncate (q * 32767) /\ 0 <= Audio.pcmSample x)) /\
  Audio.pcmSample Audio.PosInf = 32767 /\ Audio.pcmSample Audio.NegInf = -32768 /\ Audio.pcmSample Audio.NaN = 0 /\
  (pushStreamRef s = true ->
     exists pcmData, Audio.onaudioprocess inputData s = Some pcmData /\
                     length pcmData = length inputData) /\
  Audio.onaudioprocess inputData (stopTranslator s) = None.
Proof.
  assert (Hfin : forall q,
    ((q <= -1)%Q -> Audio.pcmSample (Audio.Finite q) = -32768) /\
    ((1 <= q)%Q -> Audio.pcmSample (Audio.Finite q) = 32767) /\
    ((-1 <= q)%Q -> (q < 0)%Q ->
       Audio.pcmSample (Audio.Finite q) = Audio.truncate (q * 32768) /\ Audio.pcmSample (Audio.Finite q) <= 0) /\
    ((0 <= q)%Q -> (q <= 1)%Q ->
       Audio.pcmSample (Audio.Finite q) = Audio.truncate (q * 32767) /\ 0 <= Audio.pcmSample (Audio.Finite q))).
  { intros q. rewrite pcmSample_finite. repeat split.
    - intros H. destruct (Qlt_le_dec q 1); [|q_absurd].
      destruct (Qlt_le_dec (-1) q); [q_absurd|reflexivity].
    - intros H. destruct (Qlt_le_dec q 1); [q_absurd|reflexivity].
    - destruct (Qlt_le_dec q 1); [|q_absurd].
      destruct (Qlt_le_dec (-1) q).
      + destruct (Qlt_le_dec q 0); [reflexivity|q_absurd].
      + symmetry. apply truncate_at_neg1; assumption.
    - destruct (Qlt_le_dec q 1); [|q_absurd].
      destruct (Qlt_le_dec (-1) q); [|lia].
      destruct (Qlt_le_dec q 0); [|q_absurd].
      apply (truncate_scaled_neg q); assumption.
    - destruct (Qlt_le_dec q 1).
      + destruct (Qlt_le_dec (-1) q); [|q_absurd].
        destruct (Qlt_le_dec q 0); [q_absurd|reflexivity].
      + symmetry. apply truncate_at_1; assumption.
    - destruct (Qlt_le_dec q 1); [|lia].
      destruct (Qlt_le_dec (-1) q); [|q_absurd].
      destruct (Qlt_le_dec q 0); [q_absurd|].
      apply (truncate_scaled_pos q); assumption. }
  split.
  { destruct x as [q| | |];
      [|replace (Audio.pcmSample Audio.PosInf) with 32767 by reflexivity; lia
       |replace (Audio.pcmSample Audio.NegInf) with (-32768) by reflexivity; lia
       |replace (Audio.pcmSample Audio.NaN) with 0 by reflexivity; lia].
    rewrite pcmSample_finite.
    destruct (Qlt_le_dec q 1) as [H1|H1]; [|lia].
    destruct (Qlt_le_dec (-1) q) as [H2|H2]; [|lia].
    destruct (Qlt_le_dec q 0) as [H3|H3].
    - pose proof (truncate_scaled_neg q (Qlt_le_weak _ _ H2) H3). lia.
    - pose proof (truncate_scaled_pos q H3 (Qlt_le_weak _ _ H1)). lia. }
  split; [intros q ->; apply Hfin|].
  split; [reflexivity|]. split; [reflexivity|]. split; [reflexivity|]. split.
  - intros Hp. unfold Audio.onaudioprocess. rewrite Hp. eexists. split; [reflexivity|].
    apply length_map.
  - unfold Audio.onaudioprocess.
    destruct (stopTranslator_released s) as (_ & -> & _). reflexivity.
Qed.

(** ** The token endpoint *)

Lemma truthy_Some_iff (t : jsstring) : truthy (Some t) = true <-> t <> [].
Proof. destruct t; cbn [truthy]; split; congruence. Qed.

Lemma orElse_set (k b : jsstring) : k <> [] -> Token.orElse (Some k) b = k.
Proof. intros H. unfold Token.orElse. destruct k; [congruence|reflexivity]. Qed.

Lemma json_body_kept (code : Z) (payload : Token.Body) :
  200 <= code <= 999 -> code <> 204 -> code <> 304 ->
  Token.body (Token.json code payload) = payload.
Proof.
  intros Hr H1 H2. unfold Token.json, Token.bodyless. cbn [Token.body].
  replace ((100 <=? code) && (code <=? 199)) with false
    by (symmetry; apply andb_false_iff; right; apply Z.leb_gt; lia).
  replace (code =? 204) with false by (symmetry; apply Z.eqb_neq; assumption).
  replace (code =? 304) with false by (symmetry; apply Z.eqb_neq; assumption).
  reflexivity.
Qed.

(** X11. The token endpoint. When the key or the region is empty in both the
    environment and the embedded configuration, it answers 500 with the
    credentials notice, whatever Azure would have said. Environment variables
    that are set and non-empty take priority: the embedded configuration then
    has no influence. An answer with a token has status 200, the token is what
    Azure returned for the URL of the configured region and the configured key,
    and the region in the answer is that region. When Azure fails, the answer
    has Azure's status, or 500 when there is none; it carries the text "Failed
    to fetch token from Azure" for every status from 300 to 999 but 304, and
    no body at all with 304. *)
Theorem token_endpoint_outcomes
    (c : Token.Credentials) (azure : jsstring -> jsstring -> Token.AzureOutcome) :
  let speechKey := Token.orElse (Token.envKey c) (Token.embeddedKey c) in
  let speechRegion := Token.orElse (Token.envRegion c) (Token.embeddedRegion c) in
  let res := Token.tokenHandler c azure in
  (speechKey = [] \/ speechRegion = [] ->
     res = Token.mkResponse 500 (Token.ErrorBody Token.credentialsNotFound)) /\
  (forall k g ek eg,
     Token.envKey c = Some k -> k <> [] -> Token.envRegion c = Some g -> g <> [] ->
     speechKey = k /\ speechRegion = g /\
     Token.tokenHandler (Token.mkCredentials (Some k) (Some g) ek eg) azure = res) /\
  (forall token region,
     Token.body res = Token.TokenBody token region ->
     Token.statusCode res = 200 /\ region = speechRegion /\
     speechKey <> [] /\ speechRegion <> [] /\
     azure (Token.issueTokenUrl speechRegion) speechKey = Token.AzureOk token) /\
  (speechKey <> [] -> speechRegion <> [] ->
   forall status,
     azure (Token.issueTokenUrl speechRegion) speechKey = Token.AzureError status ->
     let code := match status with
                 | Some st => if st =? 0 then 500 else st
                 | None => 500
                 end in
     Token.statusCode res = code /\
     (code = 304 -> Token.body res = Token.NoBody) /\
     (300 <= code <= 999 -> code <> 304 ->
        Token.body res = Token.ErrorBody (lit "Failed to fetch token from Azure"))).
Proof.
  cbv zeta. unfold Token.tokenHandler.
  set (speechKey := Token.orElse (Token.envKey c) (Token.embeddedKey c)).
  set (speechRegion := Token.orElse (Token.envRegion c) (Token.embeddedRegion c)).
  split; [|split; [|split]].
  - intros H.
    destruct (truthy (Some speechKey)) eqn:Ek, (truthy (Some speechRegion)) eqn:Eg;
      cbn [negb orb]; try reflexivity.
    apply truthy_Some_iff in Ek, Eg. tauto.
  - intros k g ek eg Hk Hk' Hg Hg'. subst speechKey speechRegion.
    rewrite Hk, Hg, !orElse_set by assumption. cbn [Token.envKey Token.envRegion].
    rewrite !orElse_set by assumption. auto.
  - intros token region.
    destruct (truthy (Some speechKey)) eqn:Ek, (truthy (Some speechRegion)) eqn:Eg;
      cbn [negb orb]; try discriminate.
    apply truthy_Some_iff in Ek, Eg.
    destruct (azure _ _) as [data|status] eqn:Ea.
    + cbn [Token.body Token.statusCode]. intros [= -> ->]. auto.
    + unfold Token.json. cbn [Token.body]. destruct (Token.bodyless _); discriminate.
  - intros Hk Hg status Ha.
    rewrite (proj2 (truthy_Some_iff _) Hk), (proj2 (truthy_Some_iff _) Hg), Ha.
    cbn [negb orb]. split; [reflexivity|]. split.
    + intros ->. reflexivity.
    + intros Hrange Hne. apply json_body_kept; lia.
Qed.



(** ** Overlay mode *)

Lemma overlay_act_coherent (a : Overlay.Action) (d : Overlay.Desktop) :
  Overlay.coherent d -> Overlay.offered a d -> Overlay.coherent (Overlay.act a d).
Proof.
  unfold Overlay.coherent.
  destruct d as [ov ct [[b top ign]|] nb];
    cbn [Overlay.isOverlay Overlay.isClickThrough Overlay.mainWindow].
  - intros [Hct [Htop Hign]] Hoff. cbn in Htop, Hign.
    destruct a as [wa|checked| | |r|]; cbn in Hoff |- *;
      destruct ov, ct, top, ign; try destruct checked; cbn; intuition congruence.
  - intros [Hct _] Hoff.
    destruct a as [wa|checked| | |r|]; cbn in Hoff |- *;
      destruct ov, ct; try destruct checked; cbn; intuition congruence.
Qed.

(** X13. Window modes stay coherent. From the window as [createWindow] leaves
    it, whatever the user does (toggle the overlay by button or hotkey, tick the
    click-through box, hover the controls, move the window), the window is
    always-on-top exactly in overlay mode, it ignores the mouse only while
    click-through is on, and click-through is on only in overlay mode: in
    normal mode the window is never pinned and never lets clicks through. *)
Theorem overlay_modes_stay_coherent (placed centered : Overlay.Rectangle) (d : Overlay.Desktop) :
  Overlay.reachable (Overlay.created placed centered) d ->
  (Overlay.isClickThrough d = true -> Overlay.isOverlay d = true) /\
  (forall w, Overlay.mainWindow d = Some w ->
     Overlay.alwaysOnTop w = Overlay.isOverlay d /\
     (Overlay.ignoreMouseEvents w = true -> Overlay.isClickThrough d = true) /\
     (Overlay.isOverlay d = false ->
        Overlay.alwaysOnTop w = false /\ Overlay.ignoreMouseEvents w = false)).
Proof.
  intros Hr.
  assert (H : Overlay.coherent d).
  { induction Hr as [|d a _ IH Hoff].
    - split; [discriminate|]. split; [reflexivity|discriminate].
    - apply overlay_act_coherent; assumption. }
  destruct H as [Hct Hw]. split; [exact Hct|].
  intros w Hsome. rewrite Hsome in Hw. destruct Hw as [Htop Hign].
  split; [exact Htop|]. split; [exact Hign|].
  intros Hov. split; [congruence|].
  destruct (Overlay.ignoreMouseEvents w) eqn:E; [|reflexivity].
  rewrite Hct in Hov by auto. discriminate.
Qed.

Lemma overlay_acts_stay (l : list Overlay.Action) : forall d,
  Forall (fun a => Overlay.staysInOverlay a = true) l ->
  Overlay.isOverlay d = true -> is_Some (Overlay.mainWindow d) ->
  Overlay.isOverlay (Overlay.acts l d) = true /\
  is_Some (Overlay.mainWindow (Overlay.acts l d)) /\
  Overlay.normalBounds (Overlay.acts l d) = Overlay.normalBounds d.
Proof.
  induction l as [|a l IH]; intros d Hl Hov Hw; [auto|].
  inversion Hl as [|? ? Ha Hl']; subst. cbn [Overlay.acts].
  destruct d as [ov ct [w|] nb]; [|destruct Hw as [? [=]]].
  cbn in Hov. subst ov.
  assert (H : Overlay.isOverlay (Overlay.act a (Overlay.mkDesktop true ct (Some w) nb)) = true /\
              is_Some (Overlay.mainWindow (Overlay.act a (Overlay.mkDesktop true ct (Some w) nb))) /\
              Overlay.normalBounds (Overlay.act a (Overlay.mkDesktop true ct (Some w) nb)) = nb).
  { destruct a as [wa|checked| | |r|]; try discriminate Ha; cbn;
      try destruct ct; cbn; eauto. }
  destruct H as (H1 & H2 & H3).
  destruct (IH _ Hl' H1 H2) as (I1 & I2 & I3). rewrite I3, H3. auto.
Qed.

(** X14. Leaving the overlay restores the window. Entering the overlay puts the
    window 50 pixels from the left and right edges of the work area and 20
    above its bottom, 180 high and always-on-top, and remembers the bounds it
    had. Whatever happens in overlay mode (the overlay is moved, click-through
    is switched, the controls are hovered), leaving it gives back exactly the
    remembered bounds, not always-on-top, receiving the mouse again, with
    click-through off. *)
Theorem overlay_round_trip
    (d : Overlay.Desktop) (w : Overlay.Window)
    (entering leaving : Z * Z) (l : list Overlay.Action) :
  Overlay.isOverlay d = false -> Overlay.mainWindow d = Some w ->
  Forall (fun a => Overlay.staysInOverlay a = true) l ->
  let d1 := Overlay.toggleOverlay entering d in
  let d3 := Overlay.toggleOverlay leaving (Overlay.acts l d1) in
  Overlay.mainWindow d1
    = Some (Overlay.mkWindow
              (Overlay.mkRectangle 50 (snd entering - 200) (fst entering - 100) 180)
              true (Overlay.ignoreMouseEvents w)) /\
  Overlay.isOverlay d1 = true /\
  Overlay.mainWindow d3 = Some (Overlay.mkWindow (Overlay.bounds w) false false) /\
  Overlay.isOverlay d3 = false /\ Overlay.isClickThrough d3 = false.
Proof.
  intros Hov Hw Hl. cbv zeta.
  destruct d as [ov ct mw nb]. cbn in Hov, Hw. subst ov mw.
  destruct entering as [W H].
  assert (Hx : (W - (W - 100)) / 2 = 50).
  { replace (W - (W - 100)) with 100 by ring. reflexivity. }
  assert (H1 : Overlay.toggleOverlay (W, H) (Overlay.mkDesktop false ct (Some w) nb)
               = Overlay.mkDesktop true ct
                   (Some (Overlay.mkWindow (Overlay.mkRectangle 50 (H - 200) (W - 100) 180)
                            true (Overlay.ignoreMouseEvents w)))
                   (Overlay.bounds w)).
  { cbn. rewrite Hx. replace (H - 180 - 20) with (H - 200) by ring. reflexivity. }
  rewrite H1. cbn [fst snd Overlay.mainWindow Overlay.isOverlay].
  split; [reflexivity|]. split; [reflexivity|].
  set (d1 := Overlay.mkDesktop true ct _ (Overlay.bounds w)).
  destruct (overlay_acts_stay l d1 Hl) as (I1 & [w2 I2] & I3);
    [reflexivity|eexists; reflexivity|].
  cbn [Overlay.normalBounds d1] in I3.
  destruct (Overlay.acts l d1) as [ov2 ct2 mw2 nb2]. cbn in I1, I2, I3. subst ov2 mw2 nb2.
  cbn. auto.
Qed.

Lemma overlay_round_trip_witness :
  let d := Overlay.created (Overlay.mkRectangle 0 0 800 600) (Overlay.mkRectangle 560 240 800 600) in
  let l := [Overlay.AToggleClickThrough true; Overlay.AMoved (Overlay.mkRectangle 10 10 500 180);
            Overlay.AMouseEnter] in
  Overlay.mainWindow
    (Overlay.toggleOverlay (1920, 1040)
       (Overlay.acts l (Overlay.toggleOverlay (1920, 1040) d)))
  = Some (Overlay.mkWindow (Overlay.mkRectangle 560 240 800 600) false false).
Proof.
  intros d l.
  apply (overlay_round_trip d (Overlay.mkWindow (Overlay.mkRectangle 560 240 800 600) false false)
           (1920, 1040) (1920, 1040) l); [reflexivity|reflexivity|repeat constructor].
Defined.

Lemma overlay_modes_stay_coherent_witness :
  let d0 := Overlay.created (Overlay.mkRectangle 0 0 800 600) (Overlay.mkRectangle 560 240 800 600) in
  let d := Overlay.act (Overlay.AToggleOverlay (1920, 1040))
             (Overlay.act (Overlay.AToggleClickThrough true)
                (Overlay.act (Overlay.AToggleOverlay (1920, 1040)) d0)) in
  Overlay.isOverlay d = false /\
  forall w, Overlay.mainWindow d = Some w ->
    Overlay.alwaysOnTop w = false /\ Overlay.ignoreMouseEvents w = false.
Proof.
  intros d0 d.
  assert (Hr : Overlay.reachable d0 d).
  { subst d. repeat (apply Overlay.reachable_act); try exact I; try reflexivity.
    apply Overlay.reachable_start. }
  destruct (overlay_modes_stay_coherent _ _ d Hr) as [_ Hw].
  split; [reflexivity|]. intros w Hsome. apply (Hw w Hsome). reflexivity.
Defined.

(** ** The record of the last commit *)

(** Evaluating a callback on a state given cell by cell. *)
Ltac eval_callback :=
  cbv beta iota zeta delta
    [callback startTranslator startTranslatorTry recognizing recognized canceled
     recognitionStartFailed checkSilence silenceIndicatorTimeout resetError fst
     seq skip stopTranslator cleanupRecognizer clearSilenceTimer clearTranscript
     setStatus setTranscript setInterimText setLastCommitted setErrorMessage
     setSilenceCommitted setLatencyMs set_recognizerRef set_mediaStreamRef
     set_audioContextRef set_processorRef set_pushStreamRef
     set_lastUpdateTimeRef set_silenceTimerRef set_lastCommittedTextRef
     set_currentInterimRef set_lastEventTimeRef set_liveIntervals
     set_nextTimerId set_pendingTimeouts
     status transcript interimText lastCommitted errorMessage
     silenceCommitted latencyMs recognizerRef mediaStreamRef audioContextRef
     processorRef pushStreamRef lastUpdateTimeRef silenceTimerRef
     lastCommittedTextRef currentInterimRef lastEventTimeRef liveIntervals
     nextTimerId pendingTimeouts].

Lemma committed_record_change (e : Event) (s : State) :
  (transcript (handle e s) = transcript s /\
   lastCommitted (handle e s) = lastCommitted s /\
   (lastCommittedTextRef (handle e s) = lastCommittedTextRef s \/
    lastCommittedTextRef (handle e s) = [])) \/
  (exists item,
     transcript (handle e s) = transcript s ++ [item] /\
     lastCommitted (handle e s) = text item /\
     lastCommittedTextRef (handle e s) = text item) \/
  (transcript (handle e s) = [] /\ lastCommitted (handle e s) = [] /\
   lastCommittedTextRef (handle e s) = []).
Proof.
  unfold handle.
  destruct (render_sameEngine (status s) (callback e s))
    as (_&->&_&->&_&_&_&_&_&_&_&_&_&->&_).
  destruct s as [st tr it lc em sc lat rr ms ac pr ps lu tmr lct ci le li nt pt].
  destruct e as [sdk now|[|m]|trn txt now|trd txt idNow ts upd|isErr d|err|tm now idNow ts| | | |].
  - eval_callback. destruct rr, sdk; eval_callback; auto.
  - eval_callback. auto.
  - eval_callback. destruct tmr; eval_callback; auto.
  - eval_callback. destruct txt as [t|]; [|auto].
    destruct (trn && truthy (Some t)); [|auto].
    destruct (latencySample le now); eval_callback; auto.
  - eval_callback. destruct txt as [t|]; [|auto].
    destruct (trd && truthy (Some t) && _); eval_callback; [|auto].
    right; left. eexists. eauto.
  - eval_callback. destruct isErr; [|auto]. destruct tmr; eval_callback; auto.
  - eval_callback. destruct tmr; eval_callback; auto.
  - eval_callback. destruct (silenceDetected now _); eval_callback; [|auto].
    right; left. eexists. eauto.
  - eval_callback. auto.
  - eval_callback. destruct tmr; eval_callback; auto.
  - eval_callback. auto.
  - eval_callback. auto.
Qed.

(** X15. The line shown as committed last is always the last transcript entry:
    after any sequence of events from the mounted hook, [lastCommitted] is the
    text of the last item of the transcript, or empty when the transcript is
    empty; the ref used to drop repeated finals holds that same text, or is
    empty (after a start). *)
Theorem last_committed_is_last_entry (evs : list Event) :
  lastCommitted (run evs initialState) = lastLine (run evs initialState) /\
  (lastCommittedTextRef (run evs initialState) = lastCommitted (run evs initialState) \/
   lastCommittedTextRef (run evs initialState) = []).
Proof.
  assert (H : forall s,
    lastCommitted s = lastLine s /\
    (lastCommittedTextRef s = lastCommitted s \/ lastCommittedTextRef s = []) ->
    lastCommitted (run evs s) = lastLine (run evs s) /\
    (lastCommittedTextRef (run evs s) = lastCommitted (run evs s) \/
     lastCommittedTextRef (run evs s) = [])).
  { induction evs as [|e evs IH]; intros s Hs; [exact Hs|].
    cbn [run]. apply IH. destruct Hs as [H1 H2]. unfold lastLine in *.
    destruct (committed_record_change e s)
      as [(->&->&Hr)|[(item&->&->&->)|(->&->&->)]].
    - split; [exact H1|]. destruct Hr as [-> | ->]; auto.
    - rewrite last_snoc. auto.
    - auto. }
  apply H. split; [reflexivity|auto].
Qed.

(** ** A new session *)

Lemma handle_keeps_empty_ref (e : Event) (s : State) :
  commits e s = false -> lastCommittedTextRef s = [] ->
  lastCommittedTextRef (handle e s) = [].
Proof.
  intros Hc Href. rewrite handle_lastCommittedTextRef.
  destruct s as [st tr it lc em sc lat rr ms ac pr ps lu tmr lct ci le li nt pt].
  cbn [lastCommittedTextRef] in Href. subst lct.
  destruct e as [sdk now|[|m]|trn txt now|trd txt idNow ts upd|isErr d|err|tm now idNow ts| | | |];
    cbn [commits lastCommittedTextRef] in Hc.
  - eval_callback. destruct rr, sdk; reflexivity.
  - reflexivity.
  - eval_callback. destruct tmr; reflexivity.
  - eval_callback. destruct txt as [t|]; [|reflexivity].
    destruct (trn && truthy (Some t)); [|reflexivity].
    destruct (latencySample le now); reflexivity.
  - eval_callback. destruct txt as [t|]; [|reflexivity]. rewrite Hc. reflexivity.
  - eval_callback. destruct isErr; [|reflexivity]. destruct tmr; reflexivity.
  - eval_callback. destruct tmr; reflexivity.
  - eval_callback. rewrite Hc. reflexivity.
  - reflexivity.
  - eval_callback. destruct tmr; reflexivity.
  - reflexivity.
  - reflexivity.
Qed.

Lemma run_keeps_empty_ref evs : forall s,
  commitFree evs s -> lastCommittedTextRef s = [] ->
  lastCommittedTextRef (run evs s) = [].
Proof.
  induction evs as [|e evs IH]; intros s Hfree Href; [exact Href|].
  destruct Hfree as [Hc Hfree]. cbn [run].
  apply IH; [exact Hfree|]. apply handle_keeps_empty_ref; assumption.
Qed.

(** X8. A start that passes both guards keeps the transcript and the line shown
    as committed last, but forgets the text it compares final events with and
    empties the live line. For as long as nothing is committed after that
    start (no final event appended, no silence commit), that text stays
    forgotten: a final event that arrives then is appended whenever its text
    is not blank, also when it repeats the last line of the session before, and
    dropped when it is white space only. *)
Theorem first_final_of_a_session
    (s : State) (now : Z) (evs : list Event)
    (t : jsstring) (idNow : Z) (ts : jsstring) (updNow : Z) :
  recognizerRef s = false ->
  commitFree evs (handle (EStart true now) s) ->
  let s1 := handle (EStart true now) s in
  let s2 := run evs s1 in
  let s3 := handle (ERecognized true (Some t) idNow ts updNow) s2 in
  status s1 = Listening /\ errorMessage s1 = None /\
  transcript s1 = transcript s /\ lastCommitted s1 = lastCommitted s /\
  lastCommittedTextRef s1 = [] /\ interimText s1 = [] /\ currentInterimRef s1 = [] /\
  lastUpdateTimeRef s1 = now /\
  lastCommittedTextRef s2 = [] /\
  (trim t <> [] -> transcript s3 = transcript s2 ++ [mkItem idNow ts t]) /\
  (trim t = [] -> s3 = s2).
Proof.
  intros Hrec Hfree. cbv zeta.
  assert (Hcb : callback (EStart true now) s =
                (setStatus Listening >>> setErrorMessage None >>> setInterimText [] >>>
                 set_lastUpdateTimeRef now >>> set_lastCommittedTextRef [] >>>
                 set_currentInterimRef []) s).
  { cbn [callback]. unfold startTranslator. rewrite Hrec. reflexivity. }
  destruct (render_sameEngine (status s) (callback (EStart true now) s))
    as (H1&H2&H3&H4&H5&_&_&_&_&_&_&_&H13&H14&H15&_).
  fold (handle (EStart true now) s) in *. set (s1 := handle (EStart true now) s) in *.
  rewrite Hcb in *.
  assert (Href1 : lastCommittedTextRef s1 = []) by exact H14.
  assert (Htr : transcript s1 = transcript s) by exact H2.
  repeat (split; [assumption|]).
  pose proof (run_keeps_empty_ref evs s1 Hfree Href1) as Href.
  set (s2 := run evs s1) in *.
  split; [exact Href|]. split.
  - intros Hne. destruct t as [|c t]; [contradiction Hne; reflexivity|].
    rewrite handle_transcript. cbn [callback]. rewrite recognized_final.
    rewrite bool_decide_eq_true_2 by (rewrite Href; exact Hne).
    reflexivity.
  - intros Hblank. unfold handle. cbn [callback].
    replace (recognized true (Some t) idNow ts updNow s2) with s2;
      [apply render_same_status|].
    destruct t as [|c t]; [reflexivity|]. rewrite recognized_final.
    rewrite bool_decide_eq_false_2; [reflexivity|]. rewrite Href. intros H. apply H, Hblank.
Qed.

Lemma first_final_of_a_session_witness :
  let s := handle EStop (run [ERecognized true (Some (lit "Hi.")) 2000 [] 2000] startedState) in
  let evs := [EStartSettled StartOk; ERecognizing true (Some (lit "Hi")) 5500;
              ETick 2 5600 5600 []] in
  let s2 := run evs (handle (EStart true 5000) s) in
  texts s = [lit "Hi."] /\
  texts (handle (ERecognized true (Some (lit "Hi.")) 6000 [] 6000) s2)
  = [lit "Hi."; lit "Hi."] /\
  handle (ERecognized true (Some (lit "   ")) 6000 [] 6000) s2 = s2.
Proof.
  intros s evs s2.
  assert (Hrec : recognizerRef s = false) by reflexivity.
  assert (Hfree : commitFree evs (handle (EStart true 5000) s))
    by (vm_compute; repeat split).
  split; [vm_compute; reflexivity|]. split.
  - unfold texts.
    destruct (first_final_of_a_session s 5000 evs (lit "Hi.") 6000 [] 6000 Hrec Hfree)
      as (_&_&_&_&_&_&_&_&_&Happ&_).
    fold s2 in Happ. rewrite Happ; [vm_compute; reflexivity|]. vm_compute. discriminate.
  - apply (first_final_of_a_session s 5000 evs (lit "   ") 6000 [] 6000 Hrec Hfree).
    vm_compute. reflexivity.
Defined.

(** ** A failed recognition start *)

(** X16. When [startContinuousRecognitionAsync] reports an error, the message
    "Failed to start: " followed by the error is stored and the session is
    stopped: status Idle, every resource released, the live line emptied, the
    transcript and the committed-text records untouched. *)
Theorem recognition_start_failure_effect (s : State) (err : jsstring) :
  let s' := handle (ERecognitionStartFailed err) s in
  errorMessage s' = Some (lit "Failed to start: " ++ err) /\
  status s' = Idle /\ released s' /\
  interimText s' = [] /\ currentInterimRef s' = [] /\ latencyMs s' = None /\
  sameRecord s s'.
Proof.
  cbv zeta.
  assert (Hh : handle (ERecognitionStartFailed err) s
               = stopTranslator (setErrorMessage (Some (lit "Failed to start: " ++ err)) s)).
  { unfold handle. cbn [callback]. unfold recognitionStartFailed, seq.
    destruct (stopTranslator_cells
                (setErrorMessage (Some (lit "Failed to start: " ++ err)) s))
      as (Hst&_&_&_&_&_&Href&_).
    apply render_inactive_none; [exact Href|]. rewrite Hst. reflexivity. }
  rewrite Hh. split; [|split; [|split; [apply stopTranslator_released|]]].
  - destruct (stopTranslator_cells (setErrorMessage (Some (lit "Failed to start: " ++ err)) s))
      as (_&_&_&_&_&_&_&_&->&_). reflexivity.
  - apply (stopTranslator_cells
             (setErrorMessage (Some (lit "Failed to start: " ++ err)) s)).
  - destruct s as [st tr it lc em sc lat rr ms ac pr ps lu [t|] lct ci le li nt pt];
      eval_assignments; repeat split.
Qed.

(** ** The same line after a silence commit *)

(** X17. A line committed by silence can be committed by silence again. When
    the interim text that was just committed arrives once more and another
    pause of 700ms follows, the poll tick commits it a second time if the
    line had no terminal mark of its own (the record holds the punctuated text,
    the comparison uses the bare line), and commits nothing if it had one. *)
Theorem silence_commit_of_a_repeated_line
    (s : State) (tm : nat) (now idNow : Z) (ts : jsstring)
    (txt : jsstring) (u : Z) (tm2 : nat) (now2 id2 : Z) (ts2 : jsstring) :
  silenceCondition now s ->
  trim txt = trim (currentInterimRef s) -> now2 - u >= 700 ->
  let line := trim (currentInterimRef s) in
  let s2 := handle (ERecognizing true (Some txt) u) (handle (ETick tm now idNow ts) s) in
  let s3 := handle (ETick tm2 now2 id2 ts2) s2 in
  (endsWithPunctuation line = true -> s3 = s2) /\
  (endsWithPunctuation line = false ->
     transcript s3 = transcript s ++ [mkItem idNow ts (line ++ lit ".");
                                      mkItem id2 ts2 (line ++ lit ".")]).
Proof.
  intros Hc Htxt Hgap. cbv zeta. pose proof Hc as (_ & Hne & _).
  set (line := trim (currentInterimRef s)) in *.
  assert (Hs1 : handle (ETick tm now idNow ts) s = checkSilence now idNow ts s).
  { apply handle_same_status. rewrite callback_status. reflexivity. }
  rewrite Hs1. set (s1 := checkSilence now idNow ts s).
  assert (Hcells : transcript s1 = transcript s ++ [mkItem idNow ts (punctuate line)] /\
                   lastCommittedTextRef s1 = punctuate line).
  { subst s1. unfold checkSilence. rewrite (proj2 (silenceDetected_iff now s) Hc).
    split; reflexivity. }
  destruct Hcells as [Htr1 Href1].
  destruct txt as [|c t]; [exfalso; apply Hne; rewrite <- Htxt; reflexivity|].
  set (s2 := handle (ERecognizing true (Some (c :: t)) u) s1).
  assert (H2 : transcript s2 = transcript s1 /\ lastCommittedTextRef s2 = lastCommittedTextRef s1 /\
               currentInterimRef s2 = c :: t /\ lastUpdateTimeRef s2 = u).
  { subst s2. rewrite handle_transcript, handle_lastCommittedTextRef,
      handle_currentInterimRef, handle_lastUpdateTimeRef.
    cbn [callback]. rewrite recognizing_interim.
    destruct (latencySample _ _); repeat split; reflexivity. }
  destruct H2 as (Htr2 & Href2 & Hci2 & Hlu2).
  split.
  - intros Hend. unfold handle. cbn [callback]. rewrite checkSilence_quiet.
    + apply render_same_status.
    + intros (_ & _ & Hd). apply Hd. rewrite Hci2, Href2, Href1, Htxt.
      unfold punctuate. rewrite Hend. reflexivity.
  - intros Hend.
    assert (Hp : punctuate line = line ++ lit ".").
    { unfold punctuate. rewrite Hend. reflexivity. }
    assert (Hc2 : silenceCondition now2 s2).
    { unfold silenceCondition. rewrite Hlu2, Hci2, Href2, Href1, Htxt, Hp.
      split; [exact Hgap|]. split; [exact Hne|]. intros H.
      apply (f_equal (@length _)) in H. rewrite length_app in H.
      change (length (lit ".")) with 1%nat in H. lia. }
    rewrite handle_transcript. cbn [callback]. unfold checkSilence.
    rewrite (proj2 (silenceDetected_iff now2 s2) Hc2). run_assignments.
    rewrite Htr2, Htr1, Hci2, Htxt, Hp, <- app_assoc. reflexivity.
Qed.

Lemma silence_commit_of_a_repeated_line_witness :
  let s := handle (ERecognizing true (Some (lit "hello")) 2000) startedState in
  texts (handle (ETick 1 3800 3800 [])
           (handle (ERecognizing true (Some (lit "hello")) 3000)
              (handle (ETick 1 2700 2700 []) s)))
  = [lit "hello."; lit "hello."].
Proof.
  intros s. unfold texts.
  rewrite (proj2 (silence_commit_of_a_repeated_line s 1 2700 2700 []
                    (lit "hello") 3000 1 3800 3800 []
                    ltac:(unfold silenceCondition; vm_compute; repeat split; discriminate)
                    ltac:(vm_compute; reflexivity) ltac:(lia)));
    [vm_compute; reflexivity|vm_compute; reflexivity].
Defined.

(** ** The .env file *)

Lemma split_nonempty sep s : EnvFile.split sep s <> [].
Proof.
  destruct s as [|c s]; cbn [EnvFile.split]; [discriminate|].
  destruct (c =? sep)%N; [discriminate|]. destruct (EnvFile.split sep s); discriminate.
Qed.

Lemma split_without sep s : sep ∉ s -> EnvFile.split sep s = [s].
Proof.
  induction s as [|c s IH]; intros H; [reflexivity|]. cbn [EnvFile.split].
  apply not_elem_of_cons in H as [Hc Hs].
  destruct (N.eqb_spec c sep) as [->|_]; [congruence|]. rewrite IH by exact Hs. reflexivity.
Qed.

Lemma split_app sep a b :
  EnvFile.split sep (a ++ sep :: b) = EnvFile.split sep a ++ EnvFile.split sep b.
Proof.
  induction a as [|c a IH]; cbn [app EnvFile.split].
  - rewrite N.eqb_refl. reflexivity.
  - destruct (c =? sep)%N; [rewrite IH; reflexivity|]. rewrite IH.
    destruct (EnvFile.split sep a) as [|p ps] eqn:E; [|reflexivity].
    exfalso. exact (split_nonempty sep a E).
Qed.

Lemma join_cons sep p ps :
  ps <> [] -> EnvFile.join sep (p :: ps) = p ++ sep :: EnvFile.join sep ps.
Proof. destruct ps; [congruence|reflexivity]. Qed.

Lemma join_split sep s : EnvFile.join sep (EnvFile.split sep s) = s.
Proof.
  induction s as [|c s IH]; [reflexivity|]. cbn [EnvFile.split].
  destruct (N.eqb_spec c sep) as [->|_].
  - rewrite join_cons by apply split_nonempty. rewrite IH. reflexivity.
  - destruct (EnvFile.split sep s) as [|p ps] eqn:E; [exfalso; exact (split_nonempty sep s E)|].
    destruct ps as [|q ps].
    + cbn [EnvFile.join] in *. rewrite IH. reflexivity.
    + rewrite join_cons in * by discriminate. rewrite <- IH. reflexivity.
Qed.

Lemma trimStart_blank w : EnvFile.blank w -> trimStart w = [].
Proof.
  induction 1 as [|c w Hc _ IH]; [reflexivity|]. cbn [trimStart]. rewrite Hc. exact IH.
Qed.

Lemma trimStart_blank_app w s : EnvFile.blank w -> trimStart (w ++ s) = trimStart s.
Proof.
  induction 1 as [|c w Hc _ IH]; [reflexivity|]. cbn [app trimStart]. rewrite Hc. exact IH.
Qed.

Lemma blank_rev w : EnvFile.blank w -> EnvFile.blank (rev w).
Proof. unfold EnvFile.blank. rewrite !Forall_forall. intros H c Hc. apply H.
  apply list_elem_of_In. apply in_rev. apply list_elem_of_In. exact Hc. Qed.

Lemma trimEnd_blank w : EnvFile.blank w -> trimEnd w = [].
Proof. intros H. unfold trimEnd. rewrite trimStart_blank by apply blank_rev, H. reflexivity. Qed.

Lemma trimEnd_blank_app s w : EnvFile.blank w -> trimEnd (s ++ w) = trimEnd s.
Proof.
  intros H. unfold trimEnd. rewrite rev_app_distr, trimStart_blank_app by apply blank_rev, H.
  reflexivity.
Qed.

Lemma trimEnd_snoc s d : isWhiteSpace d = false -> trimEnd (s ++ [d]) = s ++ [d].
Proof.
  intros H. unfold trimEnd. rewrite rev_unit, (trimStart_fixed d (rev s) H).
  rewrite <- (rev_unit s d), rev_involutive. reflexivity.
Qed.

(** White space around a string without white space at its ends is all that
    [trim] removes. *)
Lemma trim_padded w1 t w2 :
  trimmedShape t -> EnvFile.blank w1 -> EnvFile.blank w2 -> trim (w1 ++ t ++ w2) = t.
Proof.
  intros Ht H1 H2. unfold trim. rewrite trimStart_blank_app by exact H1.
  destruct t as [|c r].
  - cbn [app]. rewrite trimStart_blank by exact H2. reflexivity.
  - destruct Ht as [Hc (d & Hlast & Hd)]. cbn [app].
    rewrite (trimStart_fixed c (r ++ w2) Hc).
    change (c :: r ++ w2) with ((c :: r) ++ w2). rewrite trimEnd_blank_app by exact H2.
    apply last_Some in Hlast as [l' ->]. apply trimEnd_snoc, Hd.
Qed.

Lemma trimStart_app x y :
  trimStart (x ++ y) = match trimStart x with [] => trimStart y | _ => trimStart x ++ y end.
Proof.
  induction x as [|c x IH]; [reflexivity|]. cbn [app trimStart].
  destruct (isWhiteSpace c); [exact IH|reflexivity].
Qed.

(** [trimEnd] stops at the last character that is not white space. *)
Lemma trimEnd_keeps a c b :
  isWhiteSpace c = false -> trimEnd (a ++ c :: b) = a ++ c :: trimEnd b.
Proof.
  intros Hc. unfold trimEnd. rewrite rev_app_distr. cbn [rev]. rewrite <- app_assoc.
  cbn [app]. rewrite trimStart_app. destruct (trimStart (rev b)) as [|r0 r].
  - rewrite (trimStart_fixed c (rev a) Hc). cbn [rev]. rewrite rev_involutive. reflexivity.
  - rewrite rev_app_distr. cbn [rev]. rewrite rev_involutive, <- !app_assoc. reflexivity.
Qed.

Lemma blank_without c w : isWhiteSpace c = false -> EnvFile.blank w -> c ∉ w.
Proof.
  intros Hc Hw Hin. unfold EnvFile.blank in Hw. rewrite Forall_forall in Hw.
  specialize (Hw c Hin). congruence.
Qed.

Lemma blank_app a b : EnvFile.blank a -> EnvFile.blank b -> EnvFile.blank (a ++ b).
Proof. intros. apply Forall_app; auto. Qed.

(** The value of a line: what follows the first [=], trimmed. *)
Lemma trim_value w3 v w4 :
  trimmedShape v -> EnvFile.blank w3 -> EnvFile.blank w4 ->
  trim (trimEnd (w3 ++ v ++ w4)) = v.
Proof.
  intros Hv H3 H4. destruct v as [|c r].
  - cbn [app]. rewrite trimEnd_blank by (apply blank_app; assumption). reflexivity.
  - pose proof Hv as [_ (d & Hlast & Hd)]. apply last_Some in Hlast as [l' El].
    rewrite El. rewrite (app_assoc w3), trimEnd_blank_app by exact H4.
    rewrite (app_assoc w3), trimEnd_snoc by exact Hd. rewrite <- app_assoc, <- El.
    rewrite <- (app_nil_r (c :: r)) at 1. apply trim_padded; [exact Hv|exact H3|constructor].
Qed.

(** X18. A line [KEY=VALUE] of the .env file assigns VALUE to KEY, whatever white
    space (spaces, tabs, the carriage return of a CRLF file) surrounds the
    line, the key or the value: the key is what stands before the first [=],
    the value everything after it, so a value may itself contain [=] and [#],
    and may be empty. *)
Theorem env_line_assignment (w1 k w2 w3 v w4 : jsstring) :
  k <> [] -> trimmedShape k -> EnvFile.equalsSign ∉ k -> head k <> Some EnvFile.hash ->
  trimmedShape v ->
  EnvFile.blank w1 -> EnvFile.blank w2 -> EnvFile.blank w3 -> EnvFile.blank w4 ->
  EnvFile.parseLine (w1 ++ k ++ w2 ++ [EnvFile.equalsSign] ++ w3 ++ v ++ w4) = Some (k, v).
Proof.
  intros Hk Hshape Heq Hhash Hv H1 H2 H3 H4.
  assert (Et : trim (w1 ++ k ++ w2 ++ [EnvFile.equalsSign] ++ w3 ++ v ++ w4)
               = (k ++ w2) ++ EnvFile.equalsSign :: trimEnd (w3 ++ v ++ w4)).
  { unfold trim. rewrite trimStart_blank_app by exact H1.
    destruct k as [|c k']; [congruence|]. destruct Hshape as [Hc _].
    cbn [app]. rewrite (trimStart_fixed c _ Hc).
    change (c :: k' ++ w2 ++ EnvFile.equalsSign :: w3 ++ v ++ w4)
      with ((c :: k') ++ w2 ++ EnvFile.equalsSign :: w3 ++ v ++ w4).
    rewrite app_assoc. apply trimEnd_keeps. reflexivity. }
  unfold EnvFile.parseLine. cbv zeta. rewrite Et.
  destruct k as [|c k']; [congruence|].
  assert (Hc : (c =? EnvFile.hash)%N = false).
  { apply N.eqb_neq. intros ->. apply Hhash. reflexivity. }
  cbn [app truthy EnvFile.startsWith]. rewrite Hc. cbn [negb andb].
  change (c :: (k' ++ w2) ++ EnvFile.equalsSign :: trimEnd (w3 ++ v ++ w4))
    with (((c :: k') ++ w2) ++ EnvFile.equalsSign :: trimEnd (w3 ++ v ++ w4)).
  rewrite split_app, split_without.
  2:{ rewrite not_elem_of_app. split; [exact Heq|]. apply blank_without; [reflexivity|exact H2]. }
  cbn [app truthy andb].
  destruct (EnvFile.split EnvFile.equalsSign (trimEnd (w3 ++ v ++ w4))) as [|p ps] eqn:Es;
    [exfalso; exact (split_nonempty _ _ Es)|].
  cbn [length Nat.ltb Nat.leb]. rewrite <- Es, join_split.
  rewrite (trim_value w3 v w4 Hv H3 H4).
  do 2 f_equal. apply (trim_padded [] (c :: k') w2 Hshape); [constructor|exact H2].
Qed.

Lemma env_line_assignment_witness :
  EnvFile.parseLine (lit "  SPEECH_KEY = ab=c#d" ++ [13%N])
  = Some (lit "SPEECH_KEY", lit "ab=c#d").
Proof.
  apply (env_line_assignment (lit "  ") (lit "SPEECH_KEY") (lit " ") (lit " ") (lit "ab=c#d")
           [13%N]).
  - discriminate.
  - split; [reflexivity|]. eexists. split; reflexivity.
  - intros H. vm_compute in H. repeat (apply elem_of_cons in H as [H|H]; [discriminate|]).
    inversion H.
  - discriminate.
  - split; [reflexivity|]. eexists. split; reflexivity.
  - repeat constructor.
  - repeat constructor.
  - repeat constructor.
  - repeat constructor.
Defined.

Lemma trimStart_within c s : c ∈ trimStart s -> c ∈ s.
Proof.
  intros H. destruct (trimStart_suffix s) as [w E]. rewrite E.
  apply elem_of_app. right. exact H.
Qed.

Lemma trim_within c s : c ∈ trim s -> c ∈ s.
Proof.
  unfold trim, trimEnd. intros H. apply trimStart_within.
  apply list_elem_of_In, in_rev, list_elem_of_In, trimStart_within in H.
  apply list_elem_of_In, in_rev, list_elem_of_In in H. exact H.
Qed.

(** X19. Lines of the .env file that assign nothing: blank lines, comment lines
    (the first character that is not white space is [#]), lines that begin
    with [=] (an empty key), and lines without any [=]. *)
Theorem env_lines_without_assignment (w rest l : jsstring) :
  (EnvFile.blank l -> EnvFile.parseLine l = None) /\
  (EnvFile.blank w -> EnvFile.parseLine (w ++ EnvFile.hash :: rest) = None) /\
  (EnvFile.blank w -> EnvFile.parseLine (w ++ EnvFile.equalsSign :: rest) = None) /\
  (EnvFile.equalsSign ∉ l -> EnvFile.parseLine l = None).
Proof.
  assert (Hfirst : forall c, isWhiteSpace c = false -> EnvFile.blank w ->
            trim (w ++ c :: rest) = c :: trimEnd rest).
  { intros c Hc Hw. unfold trim. rewrite trimStart_blank_app by exact Hw.
    rewrite (trimStart_fixed c rest Hc). exact (trimEnd_keeps [] c rest Hc). }
  repeat split.
  - intros Hl. unfold EnvFile.parseLine, trim. cbv zeta.
    rewrite (trimStart_blank l Hl). reflexivity.
  - intros Hw. unfold EnvFile.parseLine. cbv zeta.
    rewrite (Hfirst EnvFile.hash eq_refl Hw). reflexivity.
  - intros Hw. unfold EnvFile.parseLine. cbv zeta.
    rewrite (Hfirst EnvFile.equalsSign eq_refl Hw). reflexivity.
  - intros Hl. unfold EnvFile.parseLine. cbv zeta.
    rewrite split_without by (intros H; apply Hl, trim_within, H).
    destruct (truthy (Some (trim l)) && negb (EnvFile.startsWith EnvFile.hash (trim l)));
      [|reflexivity].
    cbn [length Nat.ltb Nat.leb]. rewrite andb_false_r. reflexivity.
Qed.

Lemma parseEnv_snoc content line :
  EnvFile.newline ∉ line ->
  EnvFile.parseEnv (content ++ EnvFile.newline :: line)
  = EnvFile.assign (EnvFile.parseEnv content) line.
Proof.
  intros H. unfold EnvFile.parseEnv. rewrite split_app, fold_left_app, split_without by exact H.
  reflexivity.
Qed.

Lemma setProperty_own envVars key value :
  key <> lit "__proto__" -> EnvFile.setProperty envVars key value = <[key := value]> envVars.
Proof. intros H. unfold EnvFile.setProperty. rewrite bool_decide_eq_false_2 by exact H. reflexivity. Qed.

(** X20. The file is read line by line, and the last assignment of a key
    wins: after one more line, a key holds the value that line assigns to it,
    and every other key, or every key when the line assigns nothing, holds
    what it held before. *)
Theorem env_last_assignment_wins (content line key : jsstring) :
  EnvFile.newline ∉ line -> key <> lit "__proto__" ->
  EnvFile.parseEnv (content ++ EnvFile.newline :: line) !! key =
    match EnvFile.parseLine line with
    | Some (k, v) => if decide (k = key) then Some v else EnvFile.parseEnv content !! key
    | None => EnvFile.parseEnv content !! key
    end.
Proof.
  intros H Hkey. rewrite parseEnv_snoc by exact H. unfold EnvFile.assign.
  destruct (EnvFile.parseLine line) as [[k v]|]; [|reflexivity].
  unfold EnvFile.setProperty. destruct (decide (k = key)) as [->|Hne].
  - rewrite bool_decide_eq_false_2 by exact Hkey. apply lookup_insert_eq.
  - case_bool_decide; [reflexivity|]. apply lookup_insert_ne, Hne.
Qed.

Lemma env_last_assignment_wins_witness :
  EnvFile.parseEnv (lit "A=1" ++ EnvFile.newline :: lit "A=2") !! lit "A" = Some (lit "2").
Proof.
  exact (env_last_assignment_wins (lit "A=1") (lit "A=2") (lit "A")
           ltac:(intros H; vm_compute in H;
                 repeat (apply elem_of_cons in H as [H|H]; [discriminate|]); inversion H)
           ltac:(discriminate)).
Defined.

(** X21. From the .env file to the token request. When the last two lines of
    the file assign SPEECH_KEY a key [k] and SPEECH_REGION a region [r], both
    non-empty and neither the placeholder of env.example, the script's checks
    pass with exactly [k] and [r], and the application built from it, started
    with no environment variable, asks Azure for the token of region [r] with
    the key [k]: its /token endpoint answers 200 with Azure's token and [r]
    when Azure grants one. *)
Theorem embedded_build_token_request
    (content lk lr k r : jsstring) (azure : jsstring -> jsstring -> Token.AzureOutcome)
    (data : jsstring) :
  EnvFile.newline ∉ lk -> EnvFile.newline ∉ lr ->
  EnvFile.parseLine lk = Some (lit "SPEECH_KEY", k) ->
  EnvFile.parseLine lr = Some (lit "SPEECH_REGION", r) ->
  k <> [] -> k <> lit "your_azure_speech_key_here" ->
  r <> [] -> r <> lit "your_azure_region_here" ->
  azure (Token.issueTokenUrl r) k = Token.AzureOk data ->
  let envContent := content ++ EnvFile.newline :: lk ++ EnvFile.newline :: lr in
  EnvFile.checkCredentials (EnvFile.parseEnv envContent) = EnvFile.Found k r /\
  Token.tokenHandler (EnvFile.loadCredentials (EnvFile.embeddedConfig envContent) None None) azure
  = Token.mkResponse 200 (Token.TokenBody data r).
Proof.
  intros Hlk Hlr Hk Hr Hk0 Hk1 Hr0 Hr1 Hazure. cbv zeta.
  assert (Ekey : EnvFile.parseEnv (content ++ EnvFile.newline :: lk ++ EnvFile.newline :: lr)
                   !! lit "SPEECH_KEY" = Some k).
  { change (content ++ EnvFile.newline :: lk ++ EnvFile.newline :: lr)
      with (content ++ (EnvFile.newline :: lk) ++ EnvFile.newline :: lr).
    rewrite app_assoc, parseEnv_snoc by exact Hlr. unfold EnvFile.assign at 1. rewrite Hr.
    rewrite setProperty_own, lookup_insert_ne by discriminate.
    rewrite parseEnv_snoc by exact Hlk. unfold EnvFile.assign. rewrite Hk.
    rewrite setProperty_own by discriminate. apply lookup_insert_eq. }
  assert (Eregion : EnvFile.parseEnv (content ++ EnvFile.newline :: lk ++ EnvFile.newline :: lr)
                      !! lit "SPEECH_REGION" = Some r).
  { change (content ++ EnvFile.newline :: lk ++ EnvFile.newline :: lr)
      with (content ++ (EnvFile.newline :: lk) ++ EnvFile.newline :: lr).
    rewrite app_assoc, parseEnv_snoc by exact Hlr. unfold EnvFile.assign at 1. rewrite Hr.
    rewrite setProperty_own by discriminate. apply lookup_insert_eq. }
  assert (Echeck : EnvFile.checkCredentials
                     (EnvFile.parseEnv (content ++ EnvFile.newline :: lk ++ EnvFile.newline :: lr))
                   = EnvFile.Found k r).
  { unfold EnvFile.checkCredentials. cbv zeta. rewrite Ekey, Eregion.
    rewrite (proj2 (truthy_Some_iff k) Hk0), (proj2 (truthy_Some_iff r) Hr0).
    rewrite !bool_decide_eq_false_2 by congruence. reflexivity. }
  split; [exact Echeck|].
  unfold EnvFile.embeddedConfig. rewrite Echeck. unfold EnvFile.loadCredentials.
  rewrite !orElse_set by assumption.
  destruct k as [|k0 k']; [congruence|]. destruct r as [|r0 r']; [congruence|].
  unfold Token.tokenHandler, Token.orElse. cbv zeta.
  cbn [Token.envKey Token.envRegion Token.embeddedKey Token.embeddedRegion truthy negb orb].
  rewrite Hazure. reflexivity.
Qed.

Lemma embedded_build_token_request_witness :
  let envContent := lit "# Azure" ++ EnvFile.newline
                      :: (lit "SPEECH_KEY=0123abcd" ++ [13%N]) ++ EnvFile.newline
                      :: lit "SPEECH_REGION = westeurope" in
  EnvFile.checkCredentials (EnvFile.parseEnv envContent)
  = EnvFile.Found (lit "0123abcd") (lit "westeurope") /\
  Token.tokenHandler
    (EnvFile.loadCredentials (EnvFile.embeddedConfig envContent) None None)
    (fun _ _ => Token.AzureOk (lit "token"))
  = Token.mkResponse 200 (Token.TokenBody (lit "token") (lit "westeurope")).
Proof.
  apply (embedded_build_token_request (lit "# Azure") (lit "SPEECH_KEY=0123abcd" ++ [13%N])
           (lit "SPEECH_REGION = westeurope") (lit "0123abcd") (lit "westeurope")
           (fun _ _ => Token.AzureOk (lit "token")) (lit "token")).
  - intros H; vm_compute in H.
    repeat (apply elem_of_cons in H as [H|H]; [discriminate|]); inversion H.
  - intros H; vm_compute in H.
    repeat (apply elem_of_cons in H as [H|H]; [discriminate|]); inversion H.
  - reflexivity.
  - reflexivity.
  - discriminate.
  - discriminate.
  - discriminate.
  - discriminate.
  - reflexivity.
Defined.

(** ** Scenarios

    The engine run on concrete event sequences. After [startedState] the
    scheduled interval has handle 0; the first interim event moves the status
    to Translating, which re-runs the effect and schedules interval 1. *)

Example silence_adds_full_stop :
  let s := run [ERecognizing true (Some (lit "hello world")) 2000;
                ETick 1 2699 2699 (lit "10:00:02");
                ETick 1 2700 2700 (lit "10:00:02")] startedState in
  texts s = [lit "hello world."] /\ interimText s = [] /\
  lastCommittedTextRef s = lit "hello world." /\ silenceCommitted s = true.
Proof. vm_compute. repeat split. Qed.

Example silence_keeps_question_mark :
  let s := run [ERecognizing true (Some (lit "  hello world? ")) 2000;
                ETick 1 2800 2800 (lit "10:00:02")] startedState in
  texts s = [lit "hello world?"].
Proof. vm_compute. reflexivity. Qed.

Example silence_keeps_ideographic_full_stop :
  let s := run [ERecognizing true (Some [0x4F60; 0x597D; 0x3002]%N) 2000;
                ETick 1 2800 2800 (lit "10:00:02")] startedState in
  texts s = [[0x4F60; 0x597D; 0x3002]%N].
Proof. vm_compute. reflexivity. Qed.

Example end_to_end :
  let s := run [EStart true 0; EStartSettled StartOk;
                ERecognizing true (Some (lit "Hola")) 0;
                ERecognizing true (Some (lit "Hola mundo")) 200;
                ETick 1 300 300 (lit "10:00:00");
                ETick 1 900 900 (lit "10:00:00")] initialState in
  texts s = [lit "Hola mundo."] /\ interimText s = [] /\ status s = Translating.
Proof. vm_compute. repeat split. Qed.

Example updates_every_500ms_never_commit :
  let s := run [ERecognizing true (Some (lit "a")) 2000;
                ETick 1 2100 2100 []; ETick 1 2400 2400 [];
                ERecognizing true (Some (lit "a b")) 2500;
                ETick 1 2600 2600 []; ETick 1 2900 2900 [];
                ERecognizing true (Some (lit "a b c")) 3000;
                ETick 1 3100 3100 []; ETick 1 3400 3400 []] startedState in
  transcript s = [] /\ interimText s = lit "a b c".
Proof. vm_compute. split; reflexivity. Qed.

Example silence_commit_not_repeated :
  let s := run [ERecognizing true (Some (lit "ok")) 2000;
                ETick 1 2700 2700 []; ETick 1 2800 2800 [];
                ETick 1 3500 3500 []] startedState in
  texts s = [lit "ok."].
Proof. vm_compute. reflexivity. Qed.

Example final_then_same_text_dropped :
  let s := run [ERecognized true (Some (lit "hi")) 2000 [] 2000;
                ERecognized true (Some (lit "hi")) 3000 [] 3000] startedState in
  texts s = [lit "hi"].
Proof. vm_compute. reflexivity. Qed.

Example stop_twice :
  let s1 := handle EStop fooState in
  let s2 := handle EStop s1 in
  status s1 = Idle /\ s2 = s1.
Proof. vm_compute. split; reflexivity. Qed.

Example start_without_sdk :
  let s := handle (EStart false 1000) initialState in
  status s = Error /\
  errorMessage s = Some (lit "Speech SDK not loaded. Check your internet connection.") /\
  liveIntervals s = ∅.
Proof. vm_compute. repeat split. Qed.

Example start_throws :
  let s := run [EStart true 1000; EStartSettled (StartThrows None)] initialState in
  status s = Error /\ errorMessage s = Some (lit "Failed to start translation") /\
  recognizerRef s = false /\ liveIntervals s = ∅.
Proof. vm_compute. repeat split. Qed.
